(** * bfi: a Brainfuck interpreter (bfi.c): preprocessing and execution

    The development embeds the two core functions of [bfi.c]:

    - [prepare], which fills the line map [lines] and the jump table [jumps]
      with the help of an explicit stack of pending ['['] offsets, and
    - [execute], the [for (pc = 0; pc < source_size; ++pc) switch ...] loop
      running over the global tape [cells] with the global index [cellptr].

    Bytes ([unsigned char], [uint8_t]) are integers in [Z]; [size_t] values
    that the engine computes with are integers in [Z] with the wrap-around
    written out ([size_wrap]); arrays are lists read with stdpp's lookup and
    written with stdpp's insert.  A cell of a [malloc]ed array that has not
    been written yet is [None]. *)

From Stdlib Require Import ZArith Lia String Ascii.
From stdpp Require Import base tactics option list sorting.

(** ** Bytes of the source buffer *)

Definition byte_of_ascii (a : ascii) : Z := Z.of_N (N_of_ascii a).

Definition bytes_of_string (s : string) : list Z :=
  byte_of_ascii <$> list_ascii_of_string s.

Definition ch_newline : Z := 10.   (* '\n' *)
Definition ch_hash    : Z := 35.   (* '#' *)
Definition ch_plus    : Z := 43.   (* '+' *)
Definition ch_comma   : Z := 44.   (* ',' *)
Definition ch_minus   : Z := 45.   (* '-' *)
Definition ch_dot     : Z := 46.   (* '.' *)
Definition ch_lt      : Z := 60.   (* '<' *)
Definition ch_gt      : Z := 62.   (* '>' *)
Definition ch_open    : Z := 91.   (* '[' *)
Definition ch_close   : Z := 93.   (* ']' *)

(** ** Messages written by [errorf] and bytes written to [stdout]

    The text produced by the [printf] formats is kept in structured form: a
    message is its format together with the value of its [%zu] argument. *)

Inductive message : Type :=
  | UnbalancedClose (line : nat)     (* "[line %zu] Unbalanced ']'" *)
  | UnbalancedOpen (line : nat)      (* "[line %zu] Unbalanced '['" *)
  | RightOutOfBounds (line : nat)    (* "[line %zu] '>' causes cell out of bounds" *)
  | LeftOutOfBounds (line : nat).    (* "[line %zu] '<' causes cell out of bounds" *)

Global Instance message_eq_dec : EqDecision message.
Proof. solve_decision. Defined.

(** ** [prepare] *)

(** The locals of [prepare] together with the globals it writes.  The array
    [stack] with its count [stack_count] is a list whose head is
    [stack[stack_count - 1]]; it never holds more than [source_size] offsets,
    the capacity it is allocated with.  The offsets, the stack count and the
    line counter are natural numbers: none exceeds [source_size + 1], and
    three arrays of [source_size] cells of type [size_t] have been allocated,
    so that no [size_t] computation of [prepare] wraps around. *)
Record prep : Type := MkPrep {
  p_line : nat;
  p_stack : list nat;
  p_lines : list (option nat);
  p_jumps : list (option nat);
  p_errs : list message;
  p_success : bool
}.

(** One iteration of the first loop of [prepare], at offset [i] holding byte [c]. *)
Definition prepare_byte (c : Z) (i : nat) (st : prep) : prep :=
  let lines1 := <[i := Some (p_line st)]> (p_lines st) in
  let line1 := p_line st + (if (c =? ch_newline)%Z then 1 else 0) in
  let stack1 := if (c =? ch_open)%Z then i :: p_stack st else p_stack st in
  if (c =? ch_close)%Z then
    match stack1 with
    | [] =>
        MkPrep line1 stack1 lines1 (p_jumps st)
               (p_errs st ++ [UnbalancedClose line1]) false
    | s :: stack2 =>
        MkPrep line1 stack2 lines1
               (<[i := Some s]> (<[s := Some i]> (p_jumps st)))
               (p_errs st) (p_success st)
    end
  else MkPrep line1 stack1 lines1 (p_jumps st) (p_errs st) (p_success st).

(** The first loop, over the bytes [rest] that start at offset [i]. *)
Fixpoint prepare_scan (rest : list Z) (i : nat) (st : prep) : prep :=
  match rest with
  | [] => st
  | c :: rest' => prepare_scan rest' (S i) (prepare_byte c i st)
  end.

(** The arrays are allocated with [source_size] cells, none of them written. *)
Definition prepare_init (n : nat) : prep :=
  MkPrep 1 [] (replicate n None) (replicate n None) [] true.

(** Reading a cell of a [size_t] array; [None] when the offset is outside the
    array or the cell was never written. *)
Definition array_get (a : list (option nat)) (i : nat) : option nat :=
  mjoin (a !! i).

(** One iteration of the second loop: [errorf(..., lines[stack[i]])]. *)
Definition report_open (lines : list (option nat)) (s : nat) : option message :=
  UnbalancedOpen <$> array_get lines s.

Fixpoint report_opens (lines : list (option nat)) (bottom_up : list nat)
  : option (list message) :=
  match bottom_up with
  | [] => Some []
  | s :: more =>
      match report_open lines s, report_opens lines more with
      | Some m, Some ms => Some (m :: ms)
      | _, _ => None
      end
  end.

(** What [prepare] leaves behind: the two global arrays, the lines written
    to [stderr], and the returned flag. *)
Record prepared : Type := MkPrepared {
  pr_lines : list (option nat);
  pr_jumps : list (option nat);
  pr_errors : list message;
  pr_success : bool
}.

(** [prepare]; [None] only if the second loop read a cell never written. *)
Definition prepare (source : list Z) : option prepared :=
  let st := prepare_scan source 0 (prepare_init (length source)) in
  match report_opens (p_lines st) (reverse (p_stack st)) with
  | Some opens =>
      Some (MkPrepared (p_lines st) (p_jumps st) (p_errs st ++ opens)
              (p_success st && bool_decide (p_stack st = [])))
  | None => None
  end.

(** ** The execution engine *)

Definition CELL_COUNT : Z := 30000.

(** [size_t] is taken to be 64 bits wide; [uint8_t] arithmetic is reduced
    modulo 256 when the result is stored. *)
Definition SIZE_MODULUS : Z := 2 ^ 64.
Definition size_wrap (z : Z) : Z := (z mod SIZE_MODULUS)%Z.
Definition u8_wrap (z : Z) : Z := (z mod 256)%Z.

(** What is written to [stdout]. *)
Inductive output : Type :=
  | OutByte (b : Z)                                   (* fputc(cells[cellptr], stdout) *)
  | DumpHeader                                        (* the "CELL  VALUE (dec|hex)" line *)
  | DumpRow (index : Z) (value : Z) (current : bool). (* one "%05zu: %03u|0x%02X%s" line *)

(** The globals of [bfi.c] together with the three standard streams.
    [stdin] holds the bytes not read yet. *)
Record machine : Type := MkMachine {
  cells : list Z;
  cellptr : Z;
  debug : bool;
  source : list Z;
  lines : list (option nat);
  jumps : list (option nat);
  stdin : list Z;
  stdout : list output;
  stderr : list message
}.

Definition source_size (m : machine) : Z := Z.of_nat (length (source m)).

Definition with_cells (m : machine) (cs : list Z) : machine :=
  MkMachine cs (cellptr m) (debug m) (source m) (lines m) (jumps m)
            (stdin m) (stdout m) (stderr m).
Definition with_cellptr (m : machine) (p : Z) : machine :=
  MkMachine (cells m) p (debug m) (source m) (lines m) (jumps m)
            (stdin m) (stdout m) (stderr m).
Definition with_stdin (m : machine) (i : list Z) : machine :=
  MkMachine (cells m) (cellptr m) (debug m) (source m) (lines m) (jumps m)
            i (stdout m) (stderr m).
Definition print (m : machine) (o : output) : machine :=
  MkMachine (cells m) (cellptr m) (debug m) (source m) (lines m) (jumps m)
            (stdin m) (stdout m ++ [o]) (stderr m).
Definition errorf (m : machine) (e : message) : machine :=
  MkMachine (cells m) (cellptr m) (debug m) (source m) (lines m) (jumps m)
            (stdin m) (stdout m) (stderr m ++ [e]).

(** [cells[cellptr] = v] *)
Definition set_cell (m : machine) (v : Z) : machine :=
  with_cells m (<[Z.to_nat (cellptr m) := v]> (cells m)).

(** A read that C leaves undefined. *)
Inductive fault : Type :=
  | SourceOutOfRange (pc : Z)
  | CellOutOfRange (index : Z)
  | JumpNotSet (pc : Z)
  | LineNotSet (pc : Z).

(** How one pass through the body of the [for] loop ends: at the end of the
    [switch] ([break], or the [continue] of ['#']) with the current value of
    [pc], by [return], or in an undefined read. *)
Inductive flow : Type :=
  | Next (m : machine) (pc : Z)
  | Return (m : machine) (ok : bool)
  | Undefined (m : machine) (f : fault).

(** The [case] labels of the [switch]. *)
Inductive instr : Type :=
  | IncCell | DecCell | MoveRight | MoveLeft | LoopOpen | LoopClose
  | PutByte | GetByte | DumpCells | Inert.

Definition decode (c : Z) : instr :=
  if (c =? ch_plus)%Z then IncCell
  else if (c =? ch_minus)%Z then DecCell
  else if (c =? ch_gt)%Z then MoveRight
  else if (c =? ch_lt)%Z then MoveLeft
  else if (c =? ch_open)%Z then LoopOpen
  else if (c =? ch_close)%Z then LoopClose
  else if (c =? ch_dot)%Z then PutByte
  else if (c =? ch_comma)%Z then GetByte
  else if (c =? ch_hash)%Z then DumpCells
  else Inert.

(** The offsets the dump of ['#'] runs over: [begin] and [end]. *)
Definition dump_begin (ptr : Z) : Z := if (ptr <? 2)%Z then 0%Z else (ptr - 2)%Z.
Definition dump_end (ptr : Z) : Z := size_wrap (dump_begin ptr + 10).

(** [for (size_t i = begin; i < end; ++i)], with [n] iterations left: the
    loop runs [end - begin] times when [begin <= end], and not at all
    otherwise.  Each iteration reads [cells[i]] and prints one row. *)
Fixpoint dump_loop (n : nat) (i : Z) (m : machine) : flow :=
  match n with
  | O => Next m 0%Z
  | S n' =>
      match cells m !! Z.to_nat i with
      | None => Undefined m (CellOutOfRange i)
      | Some val =>
          dump_loop n' (size_wrap (i + 1))
                    (print m (DumpRow i val (i =? cellptr m)%Z))
      end
  end.

Definition dump (m : machine) (pc : Z) : flow :=
  let b := dump_begin (cellptr m) in
  let e := dump_end (cellptr m) in
  match dump_loop (Z.to_nat (e - b)) b (print m DumpHeader) with
  | Next m' _ => Next m' pc
  | other => other
  end.

(** The body of the [for] loop of [execute]: the [switch] on [source[pc]]. *)
Definition body (m : machine) (pc : Z) : flow :=
  match source m !! Z.to_nat pc with
  | None => Undefined m (SourceOutOfRange pc)
  | Some c =>
      match decode c with
      | IncCell =>
          match cells m !! Z.to_nat (cellptr m) with
          | Some v => Next (set_cell m (u8_wrap (v + 1))) pc
          | None => Undefined m (CellOutOfRange (cellptr m))
          end
      | DecCell =>
          match cells m !! Z.to_nat (cellptr m) with
          | Some v => Next (set_cell m (u8_wrap (v - 1))) pc
          | None => Undefined m (CellOutOfRange (cellptr m))
          end
      | MoveRight =>
          if (cellptr m =? CELL_COUNT - 1)%Z then
            match array_get (lines m) (Z.to_nat pc) with
            | Some ln => Return (errorf m (RightOutOfBounds ln)) false
            | None => Undefined m (LineNotSet pc)
            end
          else Next (with_cellptr m (size_wrap (cellptr m + 1))) pc
      | MoveLeft =>
          if (cellptr m =? 0)%Z then
            match array_get (lines m) (Z.to_nat pc) with
            | Some ln => Return (errorf m (LeftOutOfBounds ln)) false
            | None => Undefined m (LineNotSet pc)
            end
          else Next (with_cellptr m (size_wrap (cellptr m - 1))) pc
      | LoopOpen =>
          match cells m !! Z.to_nat (cellptr m) with
          | Some v =>
              if (v =? 0)%Z then
                match array_get (jumps m) (Z.to_nat pc) with
                | Some j => Next m (Z.of_nat j)
                | None => Undefined m (JumpNotSet pc)
                end
              else Next m pc
          | None => Undefined m (CellOutOfRange (cellptr m))
          end
      | LoopClose =>
          match array_get (jumps m) (Z.to_nat pc) with
          | Some j => Next m (size_wrap (Z.of_nat j - 1))
          | None => Undefined m (JumpNotSet pc)
          end
      | PutByte =>
          match cells m !! Z.to_nat (cellptr m) with
          | Some v => Next (print m (OutByte v)) pc
          | None => Undefined m (CellOutOfRange (cellptr m))
          end
      | GetByte =>
          match stdin m with
          | c :: rest =>
              match cells m !! Z.to_nat (cellptr m) with
              | Some _ => Next (set_cell (with_stdin m rest) (u8_wrap c)) pc
              | None => Undefined (with_stdin m rest) (CellOutOfRange (cellptr m))
              end
          | [] => Next m pc
          end
      | DumpCells =>
          if negb (debug m) then Next m pc else dump m pc
      | Inert => Next m pc
      end
  end.

(** How [execute] ends within a bound on the number of loop iterations. *)
Inductive result : Type :=
  | Finished (m : machine) (ok : bool)
  | Crashed (m : machine) (f : fault)
  | OutOfFuel (m : machine) (pc : Z).

(** [for (...; pc < source_size; ++pc) body], entered with [pc]. *)
Fixpoint execute_from (fuel : nat) (m : machine) (pc : Z) : result :=
  if (pc <? source_size m)%Z then
    match fuel with
    | O => OutOfFuel m pc
    | S fuel' =>
        match body m pc with
        | Next m' pc' => execute_from fuel' m' (size_wrap (pc' + 1))
        | Return m' ok => Finished m' ok
        | Undefined m' f => Crashed m' f
        end
    end
  else Finished m true.

Definition execute (fuel : nat) (m : machine) : result := execute_from fuel m 0%Z.

(** The state [execute] is entered in: the tape and its index as their
    initialisers leave them. *)
Definition boot (dbg : bool) (src : list Z) (p : prepared) (input : list Z)
  : machine :=
  MkMachine (replicate (Z.to_nat CELL_COUNT) 0%Z) 0%Z dbg src
            (pr_lines p) (pr_jumps p) input [] (pr_errors p).

(** [prepare() && execute()] of [main]: what was written to [stdout] and
    [stderr], and whether the exit status is [EXIT_SUCCESS]. *)
Definition main (fuel : nat) (dbg : bool) (src : list Z) (input : list Z)
  : option result :=
  match prepare src with
  | None => None
  | Some p =>
      if pr_success p then Some (execute fuel (boot dbg src p input))
      else Some (Finished (boot dbg src p input) false)
  end.

(** The states the loop of [execute] passes through, from [m0] on: a state
    is the machine together with the value of [pc] the loop condition is
    about to be tested on. *)
Inductive reachable (m0 : machine) : machine → Z → Prop :=
  | reachable_start : reachable m0 m0 0%Z
  | reachable_next m pc m' pc' :
      reachable m0 m pc →
      (pc < source_size m)%Z →
      body m pc = Next m' pc' →
      reachable m0 m' (size_wrap (pc' + 1)).

(** The offsets whose bytes the loop processes, in order. *)
Fixpoint executed (fuel : nat) (m : machine) (pc : Z) : list Z :=
  if (pc <? source_size m)%Z then
    match fuel with
    | O => []
    | S fuel' =>
        pc :: match body m pc with
              | Next m' pc' => executed fuel' m' (size_wrap (pc' + 1))
              | _ => []
              end
    end
  else [].

(** ** Bracket structure of a source buffer, stated on the buffer alone *)

(** The nesting depth after the bytes of [l], entered at depth [d]; [None]
    when a [']'] arrives at depth 0. *)
Fixpoint nesting (d : nat) (l : list Z) : option nat :=
  match l with
  | [] => Some d
  | c :: l' =>
      if (c =? ch_open)%Z then nesting (S d) l'
      else if (c =? ch_close)%Z then
        match d with
        | O => None
        | S d' => nesting d' l'
        end
      else nesting d l'
  end.

(** Loop-open and loop-close bytes are equal in count and correctly nested. *)
Definition balanced (l : list Z) : Prop := nesting 0 l = Some 0.

(** The bytes at the offsets [a], ..., [b - 1]. *)
Definition segment (src : list Z) (a b : nat) : list Z := take (b - a) (drop a src).

(** The ['['] at [i] and the [']'] at [j] are structural partners: the bytes
    strictly between them are balanced. *)
Definition matched (src : list Z) (i j : nat) : Prop :=
  i < j ∧ src !! i = Some ch_open ∧ src !! j = Some ch_close ∧
  balanced (segment src (S i) j).

Global Instance balanced_dec l : Decision (balanced l).
Proof. unfold balanced. apply _. Defined.

Global Instance matched_dec src i j : Decision (matched src i j).
Proof. unfold matched. apply _. Defined.

(** A [']'] that no ['['] before it is the partner of, and a ['['] that no
    [']'] of the buffer is the partner of. *)
Definition unmatched_close (src : list Z) (j : nat) : Prop :=
  src !! j = Some ch_close ∧ Forall (λ i, ¬ matched src i j) (seq 0 j).

Definition unmatched_open (src : list Z) (i : nat) : Prop :=
  src !! i = Some ch_open ∧ Forall (λ j, ¬ matched src i j) (seq 0 (length src)).

Global Instance unmatched_close_dec src j : Decision (unmatched_close src j).
Proof. unfold unmatched_close. apply _. Defined.

Global Instance unmatched_open_dec src i : Decision (unmatched_open src i).
Proof. unfold unmatched_open. apply _. Defined.

Definition unmatched_closes (src : list Z) : list nat :=
  filter (unmatched_close src) (seq 0 (length src)).

Definition unmatched_opens (src : list Z) : list nat :=
  filter (unmatched_open src) (seq 0 (length src)).

(** The 1-based line of the byte at offset [i]: one more than the number of
    newline bytes before it. *)
Definition line_of (src : list Z) (i : nat) : nat :=
  S (length (filter (λ c, c = ch_newline) (take i src))).

(** The number of bytes [c] in [l]. *)
Definition count_byte (c : Z) (l : list Z) : nat :=
  length (filter (λ x, x = c) l).

(** ** Predicates used to reason about [prepare] and [execute] *)

(** [stack_ok src p stk]: the stack [stk] (top first) when the bytes before
    offset [p] are scanned.  Every entry is the offset of a ['['], the bytes
    after the top entry are balanced up to [p], and the bytes between two
    neighbouring entries are balanced. *)
Fixpoint stack_ok (src : list Z) (p : nat) (stk : list nat) : Prop :=
  match stk with
  | [] => True
  | s :: stk' =>
      s < p ∧ src !! s = Some ch_open ∧ balanced (segment src (S s) p) ∧
      stack_ok src s stk'
  end.

Definition close_error (src : list Z) (j : nat) : message :=
  UnbalancedClose (line_of src j).

Definition open_error (src : list Z) (i : nat) : message :=
  UnbalancedOpen (line_of src i).

(** [scan_inv src p st]: the state [st] of the loop when the bytes before
    offset [p] are scanned. *)
Record scan_inv (src : list Z) (p : nat) (st : prep) : Prop := MkScanInv {
  inv_len_lines : length (p_lines st) = length src;
  inv_len_jumps : length (p_jumps st) = length src;
  inv_line : p_line st = line_of src p;
  inv_lines : ∀ i, i < p → p_lines st !! i = Some (Some (line_of src i));
  inv_stack : stack_ok src p (p_stack st);
  inv_opens : ∀ i, i < p → src !! i = Some ch_open → i ∉ p_stack st →
    ∃ j, j < p ∧ matched src i j ∧
         array_get (p_jumps st) i = Some j ∧ array_get (p_jumps st) j = Some i;
  inv_closes : ∀ j, j < p → src !! j = Some ch_close →
    unmatched_close src j ∨
    ∃ i, matched src i j ∧
         array_get (p_jumps st) j = Some i ∧ array_get (p_jumps st) i = Some j;
  inv_errs : p_errs st = close_error src <$> filter (unmatched_close src) (seq 0 p);
  inv_success : p_success st = bool_decide (p_errs st = [])
}.

(** The loop condition, the body, and [++pc]. *)
Definition loop_step (m : machine) (pc : Z) : option (machine * Z) :=
  if (pc <? source_size m)%Z then
    match body m pc with
    | Next m' pc' => Some (m', size_wrap (pc' + 1))
    | _ => None
    end
  else None.

Fixpoint loop_steps (n : nat) (m : machine) (pc : Z) : option (machine * Z) :=
  match n with
  | O => Some (m, pc)
  | S n' =>
      match loop_step m pc with
      | Some (m', pc') => loop_steps n' m' pc'
      | None => None
      end
  end.

(** The machine an outcome of the body carries. *)
Definition machine_of (f : flow) : machine :=
  match f with
  | Next m _ => m
  | Return m _ => m
  | Undefined m _ => m
  end.

(** The Tape Pointer is an index into the tape of [CELL_COUNT] cells. *)
Definition tape_ok (m : machine) : Prop :=
  Z.of_nat (length (cells m)) = CELL_COUNT ∧
  (0 ≤ cellptr m < Z.of_nat (length (cells m)))%Z.

(** The tables of the machine are the ones [prepare] built for its source,
    and [prepare] returned [true]. *)
Definition prepared_for (m : machine) : Prop :=
  ∃ p, prepare (source m) = Some p ∧ pr_success p = true ∧
       lines m = pr_lines p ∧ jumps m = pr_jumps p.

(** ** Proof automation *)

(** Two offsets holding different bytes are different offsets. *)
Ltac other_offset :=
  let E := fresh in
  intros E; subst;
  match goal with
  | H1 : ?l !! ?i = Some ?a, H2 : ?l !! ?i = Some ?b |- _ =>
      rewrite H1 in H2; injection H2; (done || congruence)
  end.

Ltac prep_simpl := cbn [p_line p_stack p_lines p_jumps p_errs p_success].

Create Rewrite HintDb bfi_decode.

(** Unfold the body at an offset whose byte is known. *)
Ltac body_at H :=
  unfold body; rewrite H; autorewrite with bfi_decode; cbv iota.

(** ** Further predicates on the state of [prepare] *)

(** Every cell of the jump table that has been written holds the offset of
    the structural partner of its own offset. *)
Definition jumps_sound (src : list Z) (jmp : list (option nat)) : Prop :=
  ∀ i j, array_get jmp i = Some j → matched src i j ∨ matched src j i.

(** The state of the first loop of [prepare] when it reaches offset [i]. *)
Definition scan_at (src : list Z) (i : nat) : prep :=
  prepare_scan (take i src) 0 (prepare_init (length src)).

(** ** Further notions for the engine *)

(** The machine a result carries. *)
Definition machine_of_result (r : result) : machine :=
  match r with
  | Finished m _ => m
  | Crashed m _ => m
  | OutOfFuel m _ => m
  end.

(** [printf] several times in a row. *)
Definition prints (m : machine) (os : list output) : machine :=
  fold_left print os m.

(** The [n] rows the dump prints from offset [b] on. *)
Definition dump_rows (m : machine) (b : Z) (n : nat) : list output :=
  (λ k, DumpRow (b + Z.of_nat k)
                (default 0%Z (cells m !! Z.to_nat (b + Z.of_nat k)))
                (b + Z.of_nat k =? cellptr m)%Z) <$> seq 0 n.

(** A byte the [switch] has no effect on: no [case] label, or ['#'] while
    [debug] is off. *)
Definition inert_byte (dbg : bool) (c : Z) : Prop :=
  decode c = Inert ∨ (decode c = DumpCells ∧ dbg = false).

Global Instance instr_eq_dec : EqDecision instr.
Proof. solve_decision. Defined.

Global Instance inert_byte_dec dbg c : Decision (inert_byte dbg c).
Proof. unfold inert_byte. apply _. Defined.

(** A message of [execute]: one of the two bounds errors. *)
Definition bounds_message (e : message) : Prop :=
  ∃ ln, e = RightOutOfBounds ln ∨ e = LeftOutOfBounds ln.

(** ** The command line and the source file: [argcheck], [xslurp], [main] *)

Definition VERSION : string := "0.2".

(** The text [usage] passes to [puts]. *)
Definition usage_text : string :=
"Usage: bfi [OPTION]... FILE
Options:
  -h, --help       Display usage information and exit.
      --version    Display version information and exit.
      --debug      Enable the # instruction for debugging.".

(** The line [errorf] writes to [stderr] for a message already formatted. *)
Definition errorf_line (msg : string) : string :=
  String.append "error: "
    (String.append msg (String (Ascii.ascii_of_nat 10) EmptyString)).

Inductive exit_status : Type := EXIT_SUCCESS | EXIT_FAILURE.

(** The globals [debug] and [path] and the two flags of [argcheck], with the
    lines written to [stderr] so far. *)
Record arg_state : Type := MkArgs {
  a_debug : bool;
  a_path : option string;
  a_unrecognized : bool;
  a_multiple : bool;
  a_err : list string
}.

(** How [argcheck] ends: in [exit], or by returning with [debug] and [path]
    set ([path] is [None] while it is [NULL]).  [out] holds the strings
    passed to [puts], [err] the lines written to [stderr]. *)
Inductive arg_outcome : Type :=
  | ArgExit (status : exit_status) (out : list string) (err : list string)
  | ArgReturn (dbg : bool) (path : option string).

(** [strncmp(a, "-", 1) == 0 || strncmp(a, "--", 2) == 0] *)
Definition looks_like_option (a : string) : bool :=
  String.prefix "-" a || String.prefix "--" a.

(** The loop of [argcheck] over [argv[1]], ..., [argv[argc - 1]]; [inr] when
    the loop is left by [exit]. *)
Fixpoint argcheck_loop (args : list string) (st : arg_state)
  : arg_state + arg_outcome :=
  match args with
  | [] => inl st
  | a :: rest =>
      if String.eqb a "-h" || String.eqb a "--help" then
        inr (ArgExit EXIT_SUCCESS [usage_text] (a_err st))
      else if String.eqb a "--version" then
        inr (ArgExit EXIT_SUCCESS [VERSION] (a_err st))
      else if String.eqb a "--debug" then
        argcheck_loop rest
          (MkArgs true (a_path st) (a_unrecognized st) (a_multiple st) (a_err st))
      else if looks_like_option a then
        argcheck_loop rest
          (MkArgs (a_debug st) (a_path st) true (a_multiple st)
             (a_err st ++
              [errorf_line
                 (String.append "Unrecognized command line option '"
                    (String.append a "'"))]))
      else
        match a_path st with
        | Some _ =>
            argcheck_loop rest
              (MkArgs (a_debug st) (a_path st) (a_unrecognized st) true (a_err st))
        | None =>
            argcheck_loop rest
              (MkArgs (a_debug st) (Some a) (a_unrecognized st) (a_multiple st)
                 (a_err st))
        end
  end.

Definition argcheck (argv : list string) : arg_outcome :=
  if Nat.eqb (length argv) 1 then ArgExit EXIT_FAILURE [usage_text] []
  else
    match argcheck_loop (tail argv) (MkArgs false None false false []) with
    | inr ended => ended
    | inl st =>
        let err :=
          if a_multiple st
          then a_err st ++ [errorf_line "More than one file provided"]
          else a_err st in
        if a_unrecognized st || a_multiple st
        then ArgExit EXIT_FAILURE [] err
        else ArgReturn (a_debug st) (a_path st)
    end.

(** What [fopen] and the reads from the stream give for a path: the stream
    cannot be opened, with the text of [strerror(errno)]; or it delivers
    [bytes] and then [EOF], which is a read error when [read_error] holds and
    the end of the file otherwise. *)
Inductive fopen_result : Type :=
  | FopenFails (reason : string)
  | FopenStream (bytes : list Z) (read_error : bool).

(** The loop of [xslurp]: one [xalloc(buf, size + 1)] per byte read.  The
    [k]-th call of [realloc] in the process succeeds when [heap k] holds;
    [calls] counts the calls made so far.  [None] when [xalloc] exits. *)
Fixpoint xslurp_loop (heap : nat → bool) (calls : nat) (buf bytes : list Z)
  : option (list Z * nat) :=
  match bytes with
  | [] => Some (buf, calls)
  | c :: rest =>
      if heap calls then xslurp_loop heap (S calls) (buf ++ [c]) rest
      else None
  end.

(** How [xslurp] ends: in [exit(EXIT_FAILURE)] after one line on [stderr], or
    by returning the buffer (whose length is [*out_buf_size]). *)
Inductive slurp_outcome : Type :=
  | SlurpExit (err : string)
  | SlurpReturn (buf : list Z) (calls : nat).

Definition xslurp (fs : string → fopen_result) (heap : nat → bool) (calls : nat)
  (path : string) : slurp_outcome :=
  match fs path with
  | FopenFails reason => SlurpExit (errorf_line reason)
  | FopenStream bytes read_error =>
      match xslurp_loop heap calls [] bytes with
      | None => SlurpExit (errorf_line "Out of memory")
      | Some (buf, calls') =>
          if read_error
          then SlurpExit
                 (errorf_line
                    (String.append "Failed to slurp file '" (String.append path "'")))
          else SlurpReturn buf calls'
      end
  end.

(** The three [xalloc(NULL, source_size * sizeof(size_t))] of [prepare]:
    [xalloc] calls [realloc] only for a size that is not 0. *)
Definition prepare_xalloc (heap : nat → bool) (calls : nat) (source_size : nat)
  : bool :=
  match source_size with
  | O => true
  | S _ => heap calls && heap (S calls) && heap (S (S calls))
  end.

(** How the process ends. *)
Inductive process : Type :=
  | Exited (status : exit_status) (out : list string) (err : list string)
  | NullPath (dbg : bool)                (* [fopen(NULL, "rb")] *)
  | Ran (r : option result).             (* [prepare() && execute()] was reached *)

(** [main], from the command line on. *)
Definition main_argv (fs : string → fopen_result) (heap : nat → bool)
  (fuel : nat) (argv : list string) (input : list Z) : process :=
  match argcheck argv with
  | ArgExit status out err => Exited status out err
  | ArgReturn dbg None => NullPath dbg
  | ArgReturn dbg (Some path) =>
      match xslurp fs heap 0 path with
      | SlurpExit err => Exited EXIT_FAILURE [] [err]
      | SlurpReturn src calls =>
          if prepare_xalloc heap calls (length src)
          then Ran (main fuel dbg src input)
          else Exited EXIT_FAILURE [] [errorf_line "Out of memory"]
      end
  end.

(** The arguments that make [argcheck] exit at once. *)
Definition help_or_version (a : string) : Prop :=
  a = "-h"%string ∨ a = "--help"%string ∨ a = "--version"%string.

(** The arguments [argcheck] reports as unrecognized, and those it takes for
    file names. *)
Definition unrecognized (a : string) : Prop :=
  a ≠ "--debug"%string ∧ looks_like_option a = true.

Definition file_argument (a : string) : Prop :=
  a ≠ "--debug"%string ∧ looks_like_option a = false.

Definition unrecognized_line (a : string) : string :=
  errorf_line
    (String.append "Unrecognized command line option '" (String.append a "'")).

Global Instance arg_eq_dec : EqDecision string := String.string_dec.

Global Instance help_or_version_dec a : Decision (help_or_version a).
Proof. unfold help_or_version. apply _. Defined.

Global Instance unrecognized_dec a : Decision (unrecognized a).
Proof. unfold unrecognized. apply _. Defined.

Global Instance file_argument_dec a : Decision (file_argument a).
Proof. unfold file_argument. apply _. Defined.

(** * Properties *)

(** ** Examples *)

Example prepare_nested :
  prepare (bytes_of_string "+[-[+]]") =
  Some (MkPrepared (replicate 7 (Some 1))
          [None; Some 6; None; Some 5; None; Some 3; Some 1] [] true).
Proof. reflexivity. Qed.

Example prepare_lone_close :
  pr_errors <$> prepare (bytes_of_string "]") = Some [UnbalancedClose 1].
Proof. reflexivity. Qed.

Example unmatched_example :
  let src := bytes_of_string "]+[[]
[" in
  unmatched_closes src = [0] ∧ unmatched_opens src = [2; 6] ∧
  line_of src 2 = 1 ∧ line_of src 6 = 2.
Proof. vm_compute. done. Qed.

(** ** Facts about nesting depth and segments *)

Section nesting_facts.
Implicit Types (l : list Z) (d e k : nat).

Lemma nesting_app l1 l2 d :
  nesting d (l1 ++ l2) = nesting d l1 ≫= λ e, nesting e l2.
Proof.
  revert d. induction l1 as [|c l1 IH]; intros d; simpl; [done|].
  destruct (c =? ch_open)%Z; [apply IH|].
  destruct (c =? ch_close)%Z; [|apply IH].
  destruct d; [done|apply IH].
Qed.

Lemma nesting_shift l d e k :
  nesting d l = Some e → nesting (d + k) l = Some (e + k).
Proof.
  revert d. induction l as [|c l IH]; intros d; simpl.
  - by intros [= ->].
  - destruct (c =? ch_open)%Z; [apply (IH (S d))|].
    destruct (c =? ch_close)%Z; [|apply IH].
    destruct d as [|d]; [done|]. apply (IH d).
Qed.

Lemma nesting_balanced_shift l k : balanced l → nesting k l = Some k.
Proof. intros H. apply (nesting_shift _ _ _ k) in H. exact H. Qed.

Lemma nesting_inert c d :
  c ≠ ch_open → c ≠ ch_close → nesting d [c] = Some d.
Proof.
  intros Ho Hc. simpl.
  destruct (Z.eqb_spec c ch_open); [done|].
  by destruct (Z.eqb_spec c ch_close).
Qed.

(** A balanced pair around a balanced segment, after a balanced segment. *)
Lemma balanced_wrap l1 l2 :
  balanced l1 → balanced l2 → balanced (l1 ++ ch_open :: l2 ++ [ch_close]).
Proof.
  unfold balanced. intros H1 H2.
  rewrite nesting_app, H1. simpl.
  rewrite nesting_app, (nesting_balanced_shift l2 1 H2). done.
Qed.
End nesting_facts.

(** ** Balance by counting *)

Lemma count_byte_cons c x l :
  count_byte c (x :: l) = (if decide (x = c) then 1 else 0) + count_byte c l.
Proof.
  unfold count_byte. destruct (decide (x = c)).
  - by rewrite filter_cons_True.
  - by rewrite filter_cons_False.
Qed.

Lemma nesting_counts l d e :
  nesting d l = Some e ↔
  (∀ k, count_byte ch_close (take k l) ≤ d + count_byte ch_open (take k l)) ∧
  e + count_byte ch_close l = d + count_byte ch_open l.
Proof.
  revert d. induction l as [|c l IH]; intros d.
  - simpl. split.
    + intros [= <-]. split; [|done]. intros k. rewrite take_nil. unfold count_byte. simpl. lia.
    + intros [_ H]. unfold count_byte in H. simpl in H. f_equal. lia.
  - simpl nesting.
    destruct (Z.eqb_spec c ch_open) as [->|Ho].
    + rewrite IH. split.
      * intros [H1 H2]. split.
        -- intros [|k]; simpl; [unfold count_byte; simpl; lia|].
           rewrite !count_byte_cons. simpl. specialize (H1 k). lia.
        -- rewrite !count_byte_cons. simpl. lia.
      * intros [H1 H2]. split.
        -- intros k. specialize (H1 (S k)). simpl in H1.
           rewrite !count_byte_cons in H1. simpl in H1. lia.
        -- rewrite !count_byte_cons in H2. simpl in H2. lia.
    + destruct (Z.eqb_spec c ch_close) as [->|Hc].
      * destruct d as [|d].
        -- split; [done|]. intros [H1 _]. specialize (H1 1). simpl in H1.
           rewrite take_0 in H1. rewrite !count_byte_cons in H1. simpl in H1.
           unfold count_byte in H1. simpl in H1. lia.
        -- rewrite IH. split.
           ++ intros [H1 H2]. split.
              ** intros [|k]; simpl; [unfold count_byte; simpl; lia|].
                 rewrite !count_byte_cons. simpl. specialize (H1 k). lia.
              ** rewrite !count_byte_cons. simpl. lia.
           ++ intros [H1 H2]. split.
              ** intros k. specialize (H1 (S k)). simpl in H1.
                 rewrite !count_byte_cons in H1. simpl in H1. lia.
              ** rewrite !count_byte_cons in H2. simpl in H2. lia.
      * rewrite IH. split.
        -- intros [H1 H2]. split.
           ++ intros [|k]; simpl; [unfold count_byte; simpl; lia|].
              rewrite !count_byte_cons.
              destruct (decide (c = ch_close)); [done|].
              destruct (decide (c = ch_open)); [done|].
              specialize (H1 k). lia.
           ++ rewrite !count_byte_cons.
              destruct (decide (c = ch_close)); [done|].
              destruct (decide (c = ch_open)); [done|]. lia.
        -- intros [H1 H2]. split.
           ++ intros k. specialize (H1 (S k)). simpl in H1.
              rewrite !count_byte_cons in H1.
              destruct (decide (c = ch_close)); [done|].
              destruct (decide (c = ch_open)); [done|]. lia.
           ++ rewrite !count_byte_cons in H2.
              destruct (decide (c = ch_close)); [done|].
              destruct (decide (c = ch_open)); [done|]. lia.
Qed.

(** [balanced]: as many ['['] as [']'], and in no prefix more [']'] than
    ['[']. *)
Lemma balanced_iff_counts l :
  balanced l ↔
  count_byte ch_open l = count_byte ch_close l ∧
  ∀ k, count_byte ch_close (take k l) ≤ count_byte ch_open (take k l).
Proof.
  unfold balanced. rewrite nesting_counts. simpl. split.
  - intros [H1 H2]. split; [lia|done].
  - intros [H1 H2]. split; [done|lia].
Qed.

Section segment_facts.
Implicit Types (src : list Z) (a b m : nat).

Lemma segment_empty src a : segment src a a = [].
Proof. unfold segment. by rewrite Nat.sub_diag. Qed.

Lemma segment_split src a m b :
  a ≤ m → m ≤ b → segment src a b = segment src a m ++ segment src m b.
Proof.
  intros Ham Hmb. unfold segment.
  replace (b - a) with ((m - a) + (b - m)) by lia.
  rewrite <- take_take_drop, drop_drop.
  by replace (a + (m - a)) with m by lia.
Qed.

Lemma segment_one src b c : src !! b = Some c → segment src b (S b) = [c].
Proof.
  intros Hb. unfold segment. replace (S b - b) with 1 by lia.
  apply list_eq. intros [|i].
  - by rewrite lookup_take_lt, lookup_drop, Nat.add_0_r by lia.
  - by rewrite lookup_take_ge by lia.
Qed.

Lemma segment_snoc src a b c :
  a ≤ b → src !! b = Some c → segment src a (S b) = segment src a b ++ [c].
Proof.
  intros Hab Hb.
  rewrite (segment_split src a b (S b)) by lia.
  by rewrite (segment_one src b c).
Qed.

Lemma segment_cons src a b c :
  a < b → src !! a = Some c → segment src a b = c :: segment src (S a) b.
Proof.
  intros Hab Ha.
  rewrite (segment_split src a (S a) b) by lia.
  by rewrite (segment_one src a c).
Qed.

(** Once a ['['] has met its partner, every longer segment after it fails
    at that partner. *)
Lemma matched_then_none src i j b :
  matched src i j → j < b → nesting 0 (segment src (S i) b) = None.
Proof.
  intros (Hij & _ & Hj & Hbal) Hjb.
  rewrite (segment_split src (S i) j b), nesting_app, Hbal by lia. simpl.
  by rewrite (segment_cons src j b ch_close) by done.
Qed.

(** A ['['] has at most one partner. *)
Lemma matched_close_unique src i j j' :
  matched src i j → matched src i j' → j = j'.
Proof.
  intros H H'.
  destruct (Nat.lt_total j j') as [Hlt|[->|Hlt]]; [|done|].
  - pose proof (matched_then_none _ _ _ _ H Hlt) as Hn.
    destruct H' as (_ & _ & _ & Hb). unfold balanced in Hb. congruence.
  - pose proof (matched_then_none _ _ _ _ H' Hlt) as Hn.
    destruct H as (_ & _ & _ & Hb). unfold balanced in Hb. congruence.
Qed.

Lemma line_of_S src i c :
  src !! i = Some c →
  line_of src (S i) = line_of src i + (if (c =? ch_newline)%Z then 1 else 0).
Proof.
  intros Hi. unfold line_of.
  rewrite (take_S_r _ _ _ Hi), filter_app, length_app.
  destruct (Z.eqb_spec c ch_newline) as [->|Hne].
  - rewrite filter_cons_True by done. simpl. lia.
  - rewrite filter_cons_False by done. simpl. lia.
Qed.
End segment_facts.

(** ** The stack of [prepare] *)

Section stack_facts.
Implicit Types (src : list Z) (stk : list nat) (p s d : nat).

Lemma stack_ok_elem src p stk s :
  stack_ok src p stk → s ∈ stk → s < p ∧ src !! s = Some ch_open.
Proof.
  revert p. induction stk as [|s0 stk IH]; intros p Hok Hin.
  - by apply elem_of_nil in Hin.
  - destruct Hok as (Hlt & Ho & _ & Hok).
    apply elem_of_cons in Hin as [->|Hin]; [done|].
    destruct (IH _ Hok Hin). split; [lia|done].
Qed.

Lemma stack_ok_self src p stk : stack_ok src p stk → p ∉ stk.
Proof. intros Hok Hin. destruct (stack_ok_elem _ _ _ _ Hok Hin). lia. Qed.

(** The entry [d] places below the top has [d] brackets pending after it. *)
Lemma stack_ok_depth src p stk d s :
  stack_ok src p stk → stk !! d = Some s →
  nesting 0 (segment src (S s) p) = Some d.
Proof.
  revert p d. induction stk as [|s0 stk IH]; intros p d Hok Hd; [done|].
  destruct Hok as (Hlt & Ho & Hbal & Hok).
  destruct d as [|d]; simpl in Hd.
  - by injection Hd as ->.
  - assert (s < s0) as Hs.
    { apply (stack_ok_elem _ _ _ _ Hok). by eapply list_elem_of_lookup_2. }
    rewrite (segment_split src (S s) s0 p), nesting_app by lia.
    rewrite (IH _ _ Hok Hd). simpl.
    rewrite (segment_cons src s0 p ch_open) by done. simpl.
    apply (nesting_balanced_shift _ (S d) Hbal).
Qed.

Lemma stack_ok_sorted src p stk :
  stack_ok src p stk → StronglySorted lt (reverse stk).
Proof.
  revert p. induction stk as [|s stk IH]; intros p Hok; simpl.
  - constructor.
  - destruct Hok as (_ & _ & _ & Hok).
    rewrite reverse_cons. apply StronglySorted_app. split_and!.
    + intros x1 x2 H1 H2. apply list_elem_of_singleton in H2 as ->.
      rewrite elem_of_reverse in H1.
      by destruct (stack_ok_elem _ _ _ _ Hok H1).
    + by apply (IH s).
    + repeat constructor.
Qed.

Lemma stack_ok_inert src p stk c :
  src !! p = Some c → c ≠ ch_open → c ≠ ch_close →
  stack_ok src p stk → stack_ok src (S p) stk.
Proof.
  intros Hp Ho Hc. destruct stk as [|s stk]; [done|].
  intros (Hlt & Hs & Hbal & Hok). split_and!; [lia|done| |done].
  unfold balanced. rewrite (segment_snoc src (S s) p c), nesting_app by (lia || done).
  rewrite Hbal. simpl. by apply nesting_inert.
Qed.

Lemma stack_ok_push src p stk :
  src !! p = Some ch_open → stack_ok src p stk → stack_ok src (S p) (p :: stk).
Proof.
  intros Hp Hok. split_and!; [lia|done| |done].
  by rewrite segment_empty.
Qed.

Lemma stack_ok_pop src p stk s :
  src !! p = Some ch_close → stack_ok src p (s :: stk) → stack_ok src (S p) stk.
Proof.
  intros Hp (Hlt & Hs & Hbal & Hok). destruct stk as [|s0 stk]; [done|].
  destruct Hok as (Hlt0 & Hs0 & Hbal0 & Hok). split_and!; [lia|done| |done].
  rewrite (segment_split src (S s0) s (S p)) by lia.
  rewrite (segment_cons src s (S p) ch_open) by (lia || done).
  rewrite (segment_snoc src (S s) p ch_close) by (lia || done).
  by apply balanced_wrap.
Qed.

Lemma stack_ok_top_matched src p stk s :
  src !! p = Some ch_close → stack_ok src p (s :: stk) → matched src s p.
Proof. intros Hp (Hlt & Hs & Hbal & _). done. Qed.
End stack_facts.

Section array_facts.
Implicit Types (a : list (option nat)) (i k v : nat).

Lemma array_get_insert_eq a i v :
  i < length a → array_get (<[i := Some v]> a) i = Some v.
Proof. intros Hi. unfold array_get. by rewrite list_lookup_insert_eq. Qed.

Lemma array_get_insert_ne a i k x :
  i ≠ k → array_get (<[i := x]> a) k = array_get a k.
Proof. intros Hne. unfold array_get. by rewrite list_lookup_insert_ne. Qed.

End array_facts.

(** ** The invariant of the first loop of [prepare] *)

Lemma prepare_byte_open i st :
  prepare_byte ch_open i st =
  MkPrep (p_line st + 0) (i :: p_stack st) (<[i := Some (p_line st)]> (p_lines st))
         (p_jumps st) (p_errs st) (p_success st).
Proof. reflexivity. Qed.

Lemma prepare_byte_close i st :
  prepare_byte ch_close i st =
  match p_stack st with
  | [] =>
      MkPrep (p_line st + 0) [] (<[i := Some (p_line st)]> (p_lines st))
             (p_jumps st) (p_errs st ++ [UnbalancedClose (p_line st + 0)]) false
  | s :: stk =>
      MkPrep (p_line st + 0) stk (<[i := Some (p_line st)]> (p_lines st))
             (<[i := Some s]> (<[s := Some i]> (p_jumps st)))
             (p_errs st) (p_success st)
  end.
Proof. unfold prepare_byte. simpl. by destruct (p_stack st). Qed.

Lemma prepare_byte_inert c i st :
  c ≠ ch_open → c ≠ ch_close →
  prepare_byte c i st =
  MkPrep (p_line st + (if (c =? ch_newline)%Z then 1 else 0)) (p_stack st)
         (<[i := Some (p_line st)]> (p_lines st))
         (p_jumps st) (p_errs st) (p_success st).
Proof.
  intros Ho Hc. unfold prepare_byte.
  destruct (Z.eqb_spec c ch_open); [done|].
  by destruct (Z.eqb_spec c ch_close).
Qed.

Lemma prepare_scan_app l1 l2 i st :
  prepare_scan (l1 ++ l2) i st =
  prepare_scan l2 (i + length l1) (prepare_scan l1 i st).
Proof.
  revert i st. induction l1 as [|c l1 IH]; intros i st; simpl.
  - by rewrite Nat.add_0_r.
  - rewrite IH. f_equal. lia.
Qed.

Section scan_invariant.
Variable src : list Z.

Lemma scan_inv_init : scan_inv src 0 (prepare_init (length src)).
Proof.
  constructor; simpl; try done; try (intros; lia); apply length_replicate.
Qed.

Lemma filter_seq_S (P : nat → Prop) `{!∀ x, Decision (P x)} p :
  filter P (seq 0 (S p)) = filter P (seq 0 p) ++ (if decide (P p) then [p] else []).
Proof.
  by rewrite seq_S, filter_app.
Qed.

(** The fields every iteration treats alike. *)
Lemma scan_lines_step p st :
  p < length src →
  length (p_lines st) = length src →
  p_line st = line_of src p →
  (∀ i, i < p → p_lines st !! i = Some (Some (line_of src i))) →
  ∀ i, i < S p →
       <[p := Some (p_line st)]> (p_lines st) !! i = Some (Some (line_of src i)).
Proof.
  intros Hp Hlen Hline Hlines i Hi.
  destruct (decide (i = p)) as [->|Hne].
  - rewrite list_lookup_insert_eq by lia. by rewrite Hline.
  - rewrite list_lookup_insert_ne by done. apply Hlines. lia.
Qed.

Lemma not_unmatched_close_other p c :
  src !! p = Some c → c ≠ ch_close → ¬ unmatched_close src p.
Proof. intros Hp Hc [H _]. congruence. Qed.

Lemma not_unmatched_close_matched i p : matched src i p → ¬ unmatched_close src p.
Proof.
  intros Hm [_ Hall]. rewrite Forall_forall in Hall.
  apply (Hall i); [|done]. apply elem_of_seq. destruct Hm. lia.
Qed.

Lemma scan_inv_step p st c :
  src !! p = Some c → scan_inv src p st → scan_inv src (S p) (prepare_byte c p st).
Proof.
  intros Hc [Hll Hlj Hline Hlines Hstk Hopens Hcloses Herrs Hsucc].
  assert (p < length src) as Hp by (by eapply lookup_lt_Some).
  pose proof (scan_lines_step p st Hp Hll Hline Hlines) as Hlines'.
  pose proof (line_of_S src p c Hc) as HlineS.
  destruct (decide (c = ch_open)) as [->|Hno];
    [|destruct (decide (c = ch_close)) as [->|Hnc]].
  - (* '[' : push *)
    rewrite prepare_byte_open. constructor; prep_simpl.
    + by rewrite length_insert.
    + done.
    + rewrite HlineS, Hline. done.
    + done.
    + by apply stack_ok_push.
    + intros i Hi Ho Hnin. apply not_elem_of_cons in Hnin as [Hne Hnin].
      destruct (Hopens i) as (j & Hj & Hm & H1 & H2); [lia|done|done|].
      exists j. split_and!; [lia|done..].
    + intros j Hj Hcl. assert (j ≠ p) by other_offset.
      apply Hcloses; [lia|done].
    + rewrite filter_seq_S, decide_False, app_nil_r; [done|].
      by apply (not_unmatched_close_other p ch_open).
    + done.
  - (* ']' *)
    rewrite prepare_byte_close.
    destruct (p_stack st) as [|s stk] eqn:Hstack.
    + (* the stack is empty: an unmatched close *)
      assert (unmatched_close src p) as Hun.
      { split; [done|]. apply Forall_forall. intros i Hi Hm.
        apply elem_of_seq in Hi.
        destruct (Hopens i) as (j & Hj & Hm' & _); [lia|apply Hm|apply not_elem_of_nil|].
        pose proof (matched_close_unique _ _ _ _ Hm Hm'). lia. }
      constructor; prep_simpl.
      * by rewrite length_insert.
      * done.
      * rewrite HlineS, Hline. done.
      * done.
      * done.
      * intros i Hi Ho _. assert (i ≠ p) by other_offset.
        destruct (Hopens i) as (j & Hj & Hm & H1 & H2);
          [lia|done|apply not_elem_of_nil|].
        exists j. split_and!; [lia|done..].
      * intros j Hj Hcl. destruct (decide (j = p)) as [->|Hne]; [by left|].
        apply Hcloses; [lia|done].
      * rewrite filter_seq_S, decide_True, fmap_app by done.
        rewrite Herrs. simpl. unfold close_error at 2.
        by rewrite Hline, Nat.add_0_r.
      * symmetry. apply bool_decide_eq_false.
        intros Hnil. by apply app_nil in Hnil as [_ ?].
    + (* pop [s] and pair it with [p] *)
      pose proof (stack_ok_top_matched _ _ _ _ Hc Hstk) as Hm.
      destruct Hstk as (Hsp & Hs & Hbal & Hok).
      assert (s ∉ stk) as Hsnot by (by apply (stack_ok_self src)).
      assert (s ≠ p) as Hsne by lia.
      assert (array_get (<[p:=Some s]> (<[s:=Some p]> (p_jumps st))) p = Some s)
        as Hjp.
      { apply array_get_insert_eq. rewrite length_insert. lia. }
      assert (array_get (<[p:=Some s]> (<[s:=Some p]> (p_jumps st))) s = Some p)
        as Hjs.
      { rewrite array_get_insert_ne by done. apply array_get_insert_eq. lia. }
      assert (∀ k, k ≠ s → k ≠ p →
                   array_get (<[p:=Some s]> (<[s:=Some p]> (p_jumps st))) k
                   = array_get (p_jumps st) k) as Hjk.
      { intros k Hks Hkp. by rewrite !array_get_insert_ne. }
      constructor; prep_simpl.
      * by rewrite length_insert.
      * by rewrite !length_insert.
      * rewrite HlineS, Hline. done.
      * done.
      * by apply (stack_ok_pop src p stk s).
      * intros i Hi Ho Hnin.
        destruct (decide (i = s)) as [->|Hne].
        { exists p. split_and!; [lia|done..]. }
        assert (i ≠ p) by other_offset.
        destruct (Hopens i) as (j & Hj & Hmi & H1 & H2); [lia|done| |].
        { apply not_elem_of_cons. done. }
        exists j. split_and!; [lia|done| |].
        -- by rewrite Hjk.
        -- destruct Hmi as (_ & _ & Hjc & _).
           rewrite Hjk; [done| |lia]. other_offset.
      * intros j Hj Hcl.
        destruct (decide (j = p)) as [->|Hne].
        { right. exists s. done. }
        destruct (Hcloses j) as [Hun|(i & Hmi & H1 & H2)]; [lia|done|by left|].
        right. exists i. split; [done|].
        assert (j ≠ s) by other_offset.
        assert (i ≠ p) by (destruct Hmi; lia).
        assert (i ≠ s).
        { intros ->. pose proof (matched_close_unique _ _ _ _ Hm Hmi). lia. }
        by rewrite !Hjk.
      * rewrite filter_seq_S, decide_False, app_nil_r; [done|].
        by apply (not_unmatched_close_matched s).
      * done.
  - (* any other byte *)
    rewrite prepare_byte_inert by done. constructor; prep_simpl.
    + by rewrite length_insert.
    + done.
    + rewrite HlineS, Hline. done.
    + done.
    + by apply (stack_ok_inert src p _ c).
    + intros i Hi Ho Hnin. assert (i ≠ p) by other_offset.
      destruct (Hopens i) as (j & Hj & Hm & H1 & H2); [lia|done|done|].
      exists j. split_and!; [lia|done..].
    + intros j Hj Hcl. assert (j ≠ p) by other_offset.
      apply Hcloses; [lia|done].
    + rewrite filter_seq_S, decide_False, app_nil_r; [done|].
      by apply (not_unmatched_close_other p c).
    + done.
Qed.

Lemma scan_inv_prefix p :
  p ≤ length src →
  scan_inv src p (prepare_scan (take p src) 0 (prepare_init (length src))).
Proof.
  induction p as [|p IH]; intros Hp.
  - apply scan_inv_init.
  - destruct (lookup_lt_is_Some_2 src p) as [c Hc]; [lia|].
    rewrite (take_S_r _ _ _ Hc), prepare_scan_app. simpl.
    rewrite length_take_le by lia.
    apply scan_inv_step; [done|]. apply IH. lia.
Qed.

Lemma scan_inv_final :
  scan_inv src (length src) (prepare_scan src 0 (prepare_init (length src))).
Proof.
  pose proof (scan_inv_prefix (length src) (le_n _)) as H.
  by rewrite firstn_all in H.
Qed.
End scan_invariant.

(** ** What the first loop leaves on the stack and in the flag *)

Lemma sorted_lt_NoDup (l : list nat) : StronglySorted lt l → NoDup l.
Proof.
  induction 1 as [|x l Hl IH Hx]; constructor; [|done].
  intros Hin. rewrite Forall_forall in Hx. specialize (Hx x Hin). lia.
Qed.

Lemma sorted_lt_seq (j n : nat) : StronglySorted lt (seq j n).
Proof.
  revert j. induction n as [|n IH]; intros j; simpl; constructor; [done|].
  apply Forall_forall. intros x Hx. apply elem_of_seq in Hx. lia.
Qed.

Lemma sorted_lt_filter (P : nat → Prop) `{!∀ x, Decision (P x)} (l : list nat) :
  StronglySorted lt l → StronglySorted lt (filter P l).
Proof.
  induction 1 as [|x l Hl IH Hx].
  - constructor.
  - destruct (decide (P x)).
    + rewrite filter_cons_True by done. constructor; [done|].
      apply Forall_forall. intros y Hy. apply list_elem_of_filter in Hy as [_ Hy].
      rewrite Forall_forall in Hx. by apply Hx.
    + by rewrite filter_cons_False.
Qed.

(** An increasing list holding exactly the offsets below [n] that satisfy
    [P] is the filter of [0, ..., n - 1] by [P]. *)
Lemma sorted_is_filter (P : nat → Prop) `{!∀ x, Decision (P x)} (l : list nat) n :
  StronglySorted lt l → (∀ i, i ∈ l ↔ i < n ∧ P i) → l = filter P (seq 0 n).
Proof.
  intros Hs Hiff. apply (StronglySorted_unique_strong lt).
  - intros; lia.
  - done.
  - apply sorted_lt_filter, sorted_lt_seq.
  - apply NoDup_Permutation.
    + by apply sorted_lt_NoDup.
    + apply NoDup_filter, NoDup_seq.
    + intros i. rewrite Hiff, list_elem_of_filter, elem_of_seq.
      split; intros []; split; (done || lia).
Qed.

Section scan_results.
Variable src : list Z.

Lemma scan_stack_unmatched p st i :
  scan_inv src p st → p = length src →
  i ∈ p_stack st ↔ i < length src ∧ unmatched_open src i.
Proof.
  intros Hinv ->. split.
  - intros Hin.
    destruct (stack_ok_elem _ _ _ _ (inv_stack _ _ _ Hinv) Hin) as [Hlt Ho].
    split; [done|]. split; [done|].
    apply Forall_forall. intros j Hj Hm. apply elem_of_seq in Hj.
    apply list_elem_of_lookup in Hin as [d Hd].
    pose proof (stack_ok_depth _ _ _ _ _ (inv_stack _ _ _ Hinv) Hd) as Hdepth.
    rewrite (matched_then_none src i j (length src) Hm) in Hdepth by lia.
    done.
  - intros [Hlt [Ho Hall]].
    destruct (decide (i ∈ p_stack st)) as [|Hnin]; [done|].
    destruct (inv_opens _ _ _ Hinv i Hlt Ho Hnin) as (j & Hj & Hm & _).
    rewrite Forall_forall in Hall. destruct (Hall j); [|done].
    apply elem_of_seq. lia.
Qed.

Lemma scan_stack_is_unmatched_opens :
  reverse (p_stack (prepare_scan src 0 (prepare_init (length src))))
  = unmatched_opens src.
Proof.
  pose proof (scan_inv_final src) as Hinv.
  apply sorted_is_filter.
  - apply (stack_ok_sorted src (length src)), (inv_stack _ _ _ Hinv).
  - intros i. rewrite elem_of_reverse.
    by apply (scan_stack_unmatched (length src)).
Qed.

Lemma scan_errs_are_unmatched_closes :
  p_errs (prepare_scan src 0 (prepare_init (length src)))
  = close_error src <$> unmatched_closes src.
Proof. apply (inv_errs _ _ _ (scan_inv_final src)). Qed.

(** The second loop reads only cells of [lines] that were written. *)
Lemma report_opens_defined lns stk :
  (∀ i, i < length src → lns !! i = Some (Some (line_of src i))) →
  Forall (λ s, s < length src) stk →
  report_opens lns stk = Some (open_error src <$> stk).
Proof.
  intros Hl. induction 1 as [|s stk Hs _ IH]; simpl; [done|].
  rewrite IH. unfold report_open, array_get. by rewrite (Hl s Hs).
Qed.

Lemma prepare_defined :
  let st := prepare_scan src 0 (prepare_init (length src)) in
  prepare src =
  Some (MkPrepared (p_lines st) (p_jumps st)
          (p_errs st ++ (open_error src <$> reverse (p_stack st)))
          (p_success st && bool_decide (p_stack st = []))).
Proof.
  intros st. pose proof (scan_inv_final src) as Hinv. fold st in Hinv.
  unfold prepare. fold st.
  rewrite (report_opens_defined (p_lines st) (reverse (p_stack st))); [done| |].
  - apply (inv_lines _ _ _ Hinv).
  - apply Forall_forall. intros s Hs. rewrite elem_of_reverse in Hs.
    by destruct (stack_ok_elem _ _ _ _ (inv_stack _ _ _ Hinv) Hs).
Qed.
End scan_results.

(** The depth counted by [nesting] is the height of the stack, as long as no
    [']'] arrives on an empty stack. *)
Lemma scan_follows_nesting rest i st e :
  nesting (length (p_stack st)) rest = Some e →
  length (p_stack (prepare_scan rest i st)) = e ∧
  p_errs (prepare_scan rest i st) = p_errs st ∧
  p_success (prepare_scan rest i st) = p_success st.
Proof.
  revert i st. induction rest as [|c rest IH]; intros i st; simpl.
  - by intros [= <-].
  - specialize (IH (S i) (prepare_byte c i st)). revert IH.
    destruct (Z.eqb_spec c ch_open) as [->|Ho].
    + rewrite prepare_byte_open. simpl. auto.
    + destruct (Z.eqb_spec c ch_close) as [->|Hc].
      * rewrite prepare_byte_close.
        destruct (p_stack st) as [|s stk]; simpl; [done|auto].
      * rewrite prepare_byte_inert by done. simpl. auto.
Qed.

Lemma scan_success_nesting rest i st :
  p_success (prepare_scan rest i st) = true →
  p_success st = true ∧
  nesting (length (p_stack st)) rest
  = Some (length (p_stack (prepare_scan rest i st))).
Proof.
  revert i st. induction rest as [|c rest IH]; intros i st; simpl; [done|].
  intros H. destruct (IH _ _ H) as [Hs Hn]. clear IH. revert Hs Hn.
  destruct (Z.eqb_spec c ch_open) as [->|Ho].
  - by rewrite prepare_byte_open.
  - destruct (Z.eqb_spec c ch_close) as [->|Hc].
    + rewrite prepare_byte_close. by destruct (p_stack st) as [|s stk].
    + by rewrite prepare_byte_inert.
Qed.

(** [prepare] returns [true] exactly on the balanced buffers. *)
Lemma prepare_success_iff src p :
  prepare src = Some p → pr_success p = true ↔ balanced src.
Proof.
  rewrite prepare_defined. intros [= <-]. simpl.
  rewrite andb_true_iff, bool_decide_eq_true. split.
  - intros [Hs Hnil].
    destruct (scan_success_nesting src 0 (prepare_init (length src)) Hs) as [_ Hn].
    rewrite Hnil in Hn. exact Hn.
  - intros Hb.
    destruct (scan_follows_nesting src 0 (prepare_init (length src)) 0 Hb)
      as (Hlen & _ & Hs).
    split; [by rewrite Hs|]. by apply length_zero_iff_nil.
Qed.

(** ** [prepare] on balanced and on unbalanced buffers *)

(** C2. On a source buffer whose loop-open and loop-close bytes are equal in
    count and correctly nested, [prepare] returns [true] without reporting
    anything, and the jump table pairs every bracket offset [i] with its
    structural partner [j]: [jumps[i] = j] and [jumps[j] = i], so that
    [jumps[jumps[i]] = i]. *)
Theorem prepare_balanced_involution (src : list Z) (Hb : balanced src) :
  ∃ p, prepare src = Some p ∧ pr_success p = true ∧ pr_errors p = [] ∧
       ∀ i, src !! i = Some ch_open ∨ src !! i = Some ch_close →
            ∃ j, array_get (pr_jumps p) i = Some j ∧
                 array_get (pr_jumps p) j = Some i ∧
                 (matched src i j ∨ matched src j i).
Proof.
  pose proof (prepare_defined src) as Hp. simpl in Hp.
  pose proof (scan_inv_final src) as Hinv.
  destruct (scan_follows_nesting src 0 (prepare_init (length src)) 0 Hb)
    as (Hlen & Herrs & Hsucc).
  apply length_zero_iff_nil in Hlen.
  set (st := prepare_scan src 0 (prepare_init (length src))) in *.
  simpl in Herrs, Hsucc.
  eexists. split; [exact Hp|]. simpl. rewrite Hlen, Herrs, Hsucc.
  split_and!; [done..|].
  intros i [Ho|Hc].
  - assert (i < length src) as Hi by (by eapply lookup_lt_Some).
    destruct (inv_opens _ _ _ Hinv i Hi Ho) as (j & _ & Hm & H1 & H2).
    { rewrite Hlen. apply not_elem_of_nil. }
    exists j. auto.
  - assert (i < length src) as Hi by (by eapply lookup_lt_Some).
    destruct (inv_closes _ _ _ Hinv i Hi Hc) as [Hun|(j & Hm & H1 & H2)].
    + exfalso. pose proof (inv_errs _ _ _ Hinv) as He. rewrite Herrs in He.
      symmetry in He. apply fmap_nil_inv in He.
      assert (i ∈ filter (unmatched_close src) (seq 0 (length src))) as Hin.
      { apply list_elem_of_filter. split; [done|]. apply elem_of_seq. lia. }
      rewrite He in Hin. by apply elem_of_nil in Hin.
    + exists j. auto.
Qed.

Lemma prepare_balanced_involution_witness :
  ∃ p, prepare (bytes_of_string "+[-[+]]") = Some p ∧
       pr_success p = true ∧ pr_errors p = [] ∧
       ∀ i, bytes_of_string "+[-[+]]" !! i = Some ch_open ∨
            bytes_of_string "+[-[+]]" !! i = Some ch_close →
            ∃ j, array_get (pr_jumps p) i = Some j ∧
                 array_get (pr_jumps p) j = Some i ∧
                 (matched (bytes_of_string "+[-[+]]") i j ∨
                  matched (bytes_of_string "+[-[+]]") j i).
Proof.
  apply (prepare_balanced_involution (bytes_of_string "+[-[+]]")).
  reflexivity.
Defined.

(** C5. On a source buffer that is not balanced, [prepare] returns [false]
    after reporting every violation: first one message per unmatched [']'],
    in the order they are scanned, each citing the line of that [']'], then
    one message per offset left on the stack, bottom entry first; the
    offsets left on the stack are the unmatched ['['] in increasing order,
    and each message cites the line of its own ['[']. *)
Theorem prepare_reports_every_violation (src : list Z) (Hu : ¬ balanced src) :
  let st := prepare_scan src 0 (prepare_init (length src)) in
  let at_offset j := prepare_scan (take j src) 0 (prepare_init (length src)) in
  ∃ p, prepare src = Some p ∧ pr_success p = false ∧
       (∀ j, j < length src →
             p_errs (at_offset (S j)) =
             p_errs (at_offset j) ++
             (if decide (unmatched_close src j) then [close_error src j] else [])) ∧
       p_errs st = close_error src <$> unmatched_closes src ∧
       reverse (p_stack st) = unmatched_opens src ∧
       pr_errors p = p_errs st ++ (open_error src <$> reverse (p_stack st)) ∧
       pr_errors p = (close_error src <$> unmatched_closes src) ++
                     (open_error src <$> unmatched_opens src) ∧
       pr_errors p ≠ [].
Proof.
  intros st at_offset.
  assert (∀ j, j < length src →
             p_errs (at_offset (S j)) =
             p_errs (at_offset j) ++
             (if decide (unmatched_close src j) then [close_error src j] else []))
    as Hmoment.
  { intros j Hj. unfold at_offset.
    rewrite (inv_errs _ _ _ (scan_inv_prefix src (S j) Hj)).
    rewrite (inv_errs _ _ _ (scan_inv_prefix src j (Nat.lt_le_incl _ _ Hj))).
    rewrite filter_seq_S, fmap_app. by destruct (decide (unmatched_close src j)). }
  clearbody at_offset.
  pose proof (prepare_defined src) as Hp. simpl in Hp. fold st in Hp.
  pose proof (scan_inv_final src) as Hinv. fold st in Hinv.
  pose proof (scan_errs_are_unmatched_closes src) as He. fold st in He.
  pose proof (scan_stack_is_unmatched_opens src) as Hs. fold st in Hs.
  assert (p_success st && bool_decide (p_stack st = []) = false) as Hfalse.
  { apply not_true_is_false. intros Ht. apply Hu.
    by apply (prepare_success_iff src _ Hp). }
  eexists. split; [exact Hp|]. simpl.
  split_and!; [done|done|done|done|done|by rewrite He, Hs|].
  intros Hnil. apply app_eq_nil in Hnil as [Hn1 Hn2].
  apply andb_false_iff in Hfalse as [Hf|Hf].
  - rewrite (inv_success _ _ _ Hinv), bool_decide_eq_false in Hf. done.
  - apply bool_decide_eq_false in Hf. apply fmap_nil_inv in Hn2.
    apply Hf. rewrite <- (reverse_involutive (p_stack st)), Hn2. done.
Qed.

Lemma prepare_reports_every_violation_witness :
  let src := bytes_of_string "]+[[]
[" in
  let st := prepare_scan src 0 (prepare_init (length src)) in
  let at_offset j := prepare_scan (take j src) 0 (prepare_init (length src)) in
  ∃ p, prepare src = Some p ∧ pr_success p = false ∧
       (∀ j, j < length src →
             p_errs (at_offset (S j)) =
             p_errs (at_offset j) ++
             (if decide (unmatched_close src j) then [close_error src j] else [])) ∧
       p_errs st = close_error src <$> unmatched_closes src ∧
       reverse (p_stack st) = unmatched_opens src ∧
       pr_errors p = p_errs st ++ (open_error src <$> reverse (p_stack st)) ∧
       pr_errors p = (close_error src <$> unmatched_closes src) ++
                     (open_error src <$> unmatched_opens src) ∧
       pr_errors p ≠ [].
Proof.
  apply (prepare_reports_every_violation (bytes_of_string "]+[[]
[")).
  unfold balanced. vm_compute. discriminate.
Defined.

(** ** One iteration of the loop of [execute] *)

Lemma decode_plus : decode ch_plus = IncCell.
Proof. reflexivity. Qed.
Lemma decode_minus : decode ch_minus = DecCell.
Proof. reflexivity. Qed.
Lemma decode_gt : decode ch_gt = MoveRight.
Proof. reflexivity. Qed.
Lemma decode_lt : decode ch_lt = MoveLeft.
Proof. reflexivity. Qed.
Lemma decode_open : decode ch_open = LoopOpen.
Proof. reflexivity. Qed.
Lemma decode_close : decode ch_close = LoopClose.
Proof. reflexivity. Qed.
Lemma decode_dot : decode ch_dot = PutByte.
Proof. reflexivity. Qed.
Lemma decode_comma : decode ch_comma = GetByte.
Proof. reflexivity. Qed.
Lemma decode_hash : decode ch_hash = DumpCells.
Proof. reflexivity. Qed.

#[export] Hint Rewrite decode_plus decode_minus decode_gt decode_lt decode_open
  decode_close decode_dot decode_comma decode_hash : bfi_decode.

Lemma size_wrap_small z : (0 ≤ z < SIZE_MODULUS)%Z → size_wrap z = z.
Proof. intros Hz. unfold size_wrap. by apply Z.mod_small. Qed.

Lemma CELL_COUNT_small : (16 < CELL_COUNT < SIZE_MODULUS - 16)%Z.
Proof. done. Qed.

Lemma dump_loop_frame n i m :
  let m' := machine_of (dump_loop n i m) in
  cells m' = cells m ∧ cellptr m' = cellptr m ∧ source m' = source m ∧
  lines m' = lines m ∧ jumps m' = jumps m ∧ debug m' = debug m ∧
  stdin m' = stdin m ∧ stderr m' = stderr m.
Proof.
  revert i m. induction n as [|n IH]; intros i m; simpl; [done|].
  destruct (cells m !! Z.to_nat i) as [v|]; [|done].
  apply (IH (size_wrap (i + 1)) (print m (DumpRow i v (i =? cellptr m)%Z))).
Qed.

Lemma dump_frame m pc :
  let m' := machine_of (dump m pc) in
  cells m' = cells m ∧ cellptr m' = cellptr m ∧ source m' = source m ∧
  lines m' = lines m ∧ jumps m' = jumps m ∧ debug m' = debug m ∧
  stdin m' = stdin m ∧ stderr m' = stderr m.
Proof.
  unfold dump.
  pose proof (dump_loop_frame
                (Z.to_nat (dump_end (cellptr m) - dump_begin (cellptr m)))
                (dump_begin (cellptr m)) (print m DumpHeader)) as H.
  by destruct (dump_loop _ _ _).
Qed.

(** ** Frame and invariant of the loop body *)

(** C9. One pass through the body of the loop changes at most the tape cell
    at the Tape Pointer: every other cell, the length of the tape, the
    source buffer, the line map and the jump table are as before, however
    the pass ends. *)
Theorem body_frame (m : machine) (pc : Z) :
  source (machine_of (body m pc)) = source m ∧
  lines (machine_of (body m pc)) = lines m ∧
  jumps (machine_of (body m pc)) = jumps m ∧
  length (cells (machine_of (body m pc))) = length (cells m) ∧
  ∀ i, i ≠ Z.to_nat (cellptr m) →
       cells (machine_of (body m pc)) !! i = cells m !! i.
Proof.
  assert (∀ v,
    source (set_cell m v) = source m ∧ lines (set_cell m v) = lines m ∧
    jumps (set_cell m v) = jumps m ∧
    length (cells (set_cell m v)) = length (cells m) ∧
    ∀ i, i ≠ Z.to_nat (cellptr m) → cells (set_cell m v) !! i = cells m !! i)
    as Hset.
  { intros v. simpl. split_and!; [done|done|done|by rewrite length_insert|].
    intros i Hi. by rewrite list_lookup_insert_ne. }
  unfold body.
  destruct (source m !! Z.to_nat pc) as [c|]; [|done].
  destruct (decode c).
  - destruct (cells m !! Z.to_nat (cellptr m)) as [v|]; [apply Hset|done].
  - destruct (cells m !! Z.to_nat (cellptr m)) as [v|]; [apply Hset|done].
  - destruct (cellptr m =? CELL_COUNT - 1)%Z; [|by simpl].
    by destruct (array_get (lines m) (Z.to_nat pc)); simpl.
  - destruct (cellptr m =? 0)%Z; [|by simpl].
    by destruct (array_get (lines m) (Z.to_nat pc)); simpl.
  - destruct (cells m !! Z.to_nat (cellptr m)) as [v|]; [|done].
    destruct (v =? 0)%Z; [|by simpl].
    by destruct (array_get (jumps m) (Z.to_nat pc)); simpl.
  - by destruct (array_get (jumps m) (Z.to_nat pc)); simpl.
  - by destruct (cells m !! Z.to_nat (cellptr m)) as [v|]; simpl.
  - destruct (stdin m) as [|b rest]; [by simpl|].
    destruct (cells m !! Z.to_nat (cellptr m)) as [v|]; [|by simpl].
    simpl; split_and!; [done|done|done|by rewrite length_insert|].
    intros i Hi. by rewrite list_lookup_insert_ne.
  - destruct (negb (debug m)); [by simpl|].
    destruct (dump_frame m pc) as (Hc & _ & Hs & Hl & Hj & _).
    by rewrite Hc, Hs, Hl, Hj.
  - by simpl.
Qed.

Lemma tape_ok_set_cell m v : tape_ok m → tape_ok (set_cell m v).
Proof. unfold tape_ok. simpl. by rewrite length_insert. Qed.

Lemma tape_ok_lookup m : tape_ok m → is_Some (cells m !! Z.to_nat (cellptr m)).
Proof. intros [_ H]. apply lookup_lt_is_Some_2. lia. Qed.

(** A pass through the body that reaches the end of the [switch] leaves the
    Tape Pointer inside the tape and moves it by at most one cell. *)
Lemma body_next_pointer m pc m' pc' :
  tape_ok m → body m pc = Next m' pc' →
  tape_ok m' ∧
  (cellptr m' = cellptr m ∨ cellptr m' = (cellptr m + 1)%Z ∨
   cellptr m' = (cellptr m - 1)%Z).
Proof.
  intros Hok. pose proof Hok as [Hlen Hptr]. unfold body.
  destruct (source m !! Z.to_nat pc) as [c|]; [|done].
  destruct (decode c).
  - destruct (cells m !! Z.to_nat (cellptr m)) as [v|]; [|done].
    intros [= <- _]. split; [by apply tape_ok_set_cell|by left].
  - destruct (cells m !! Z.to_nat (cellptr m)) as [v|]; [|done].
    intros [= <- _]. split; [by apply tape_ok_set_cell|by left].
  - destruct (Z.eqb_spec (cellptr m) (CELL_COUNT - 1)) as [|Hne].
    { by destruct (array_get (lines m) (Z.to_nat pc)). }
    intros [= <- _]. pose proof CELL_COUNT_small.
    rewrite size_wrap_small by lia.
    split; [|by (right; left)]. unfold tape_ok. simpl. lia.
  - destruct (Z.eqb_spec (cellptr m) 0) as [|Hne].
    { by destruct (array_get (lines m) (Z.to_nat pc)). }
    intros [= <- _]. pose proof CELL_COUNT_small.
    rewrite size_wrap_small by lia.
    split; [|by (right; right)]. unfold tape_ok. simpl. lia.
  - destruct (cells m !! Z.to_nat (cellptr m)) as [v|]; [|done].
    destruct (v =? 0)%Z.
    + destruct (array_get (jumps m) (Z.to_nat pc)); [|done].
      intros [= <- _]. split; [done|by left].
    + intros [= <- _]. split; [done|by left].
  - destruct (array_get (jumps m) (Z.to_nat pc)); [|done].
    intros [= <- _]. split; [done|by left].
  - destruct (cells m !! Z.to_nat (cellptr m)) as [v|]; [|done].
    intros [= <- _]. split; [done|by left].
  - destruct (stdin m) as [|b rest].
    + intros [= <- _]. split; [done|by left].
    + destruct (cells m !! Z.to_nat (cellptr m)) as [v|]; [|done].
      intros [= <- _]. split; [|by left].
      unfold tape_ok. simpl. by rewrite length_insert.
  - destruct (negb (debug m)).
    + intros [= <- _]. split; [done|by left].
    + intros Hd. destruct (dump_frame m pc) as (Hc & Hp & _).
      rewrite Hd in Hc, Hp. simpl in Hc, Hp.
      split; [|by left]. unfold tape_ok. by rewrite Hc, Hp.
  - intros [= <- _]. split; [done|by left].
Qed.

Lemma tape_ok_boot dbg src p input : tape_ok (boot dbg src p input).
Proof.
  unfold tape_ok, boot. cbn [cells cellptr].
  rewrite length_replicate, Z2Nat.id; unfold CELL_COUNT; lia.
Qed.

Lemma boot_cell_zero dbg src p input :
  cells (boot dbg src p input) !! Z.to_nat (cellptr (boot dbg src p input))
  = Some 0%Z.
Proof.
  unfold boot. cbn [cells cellptr]. apply lookup_replicate_2.
  unfold CELL_COUNT. lia.
Qed.

(** At the last cell ['>'] does not reach the end of the [switch], and at
    cell 0 ['<'] does not. *)
Lemma body_move_at_edge m pc :
  (source m !! Z.to_nat pc = Some ch_gt ∧ cellptr m = (CELL_COUNT - 1)%Z) ∨
  (source m !! Z.to_nat pc = Some ch_lt ∧ cellptr m = 0%Z) →
  loop_step m pc = None.
Proof.
  unfold loop_step. destruct (pc <? source_size m)%Z; [|done].
  intros [[Hs Hp]|[Hs Hp]]; body_at Hs; rewrite Hp; simpl;
    by destruct (array_get (lines m) (Z.to_nat pc)).
Qed.

(** C6. In every state the loop of [execute] reaches from the state it is
    entered in, the Tape Pointer is an index into the tape of [CELL_COUNT]
    cells.  It starts at 0; a pass through the body that lets the loop go on
    keeps it inside the tape and moves it by at most one cell, without
    wrap-around; and a move past either end of the tape ends the loop. *)
Theorem tape_pointer_in_range dbg src p input m pc
  (Hr : reachable (boot dbg src p input) m pc) :
  cellptr (boot dbg src p input) = 0%Z ∧
  tape_ok m ∧
  (∀ m' pc', body m pc = Next m' pc' →
     tape_ok m' ∧
     (cellptr m' = cellptr m ∨ cellptr m' = (cellptr m + 1)%Z ∨
      cellptr m' = (cellptr m - 1)%Z)) ∧
  ((source m !! Z.to_nat pc = Some ch_gt ∧ cellptr m = (CELL_COUNT - 1)%Z) ∨
   (source m !! Z.to_nat pc = Some ch_lt ∧ cellptr m = 0%Z) →
   loop_step m pc = None).
Proof.
  assert (tape_ok m) as Hok.
  { induction Hr as [|m pc m' pc' _ IH _ Hb]; [apply tape_ok_boot|].
    by destruct (body_next_pointer _ _ _ _ IH Hb). }
  split_and!; [done|done| |apply body_move_at_edge].
  intros m' pc'. by apply body_next_pointer.
Qed.

Lemma tape_pointer_in_range_witness :
  let p := MkPrepared [Some 1] [None] [] true in
  let m0 := boot false (bytes_of_string ">") p [] in
  let m := with_cellptr m0 1 in
  cellptr m0 = 0%Z ∧
  tape_ok m ∧
  (∀ m' pc', body m 1 = Next m' pc' →
     tape_ok m' ∧
     (cellptr m' = cellptr m ∨ cellptr m' = (cellptr m + 1)%Z ∨
      cellptr m' = (cellptr m - 1)%Z)) ∧
  ((source m !! Z.to_nat 1 = Some ch_gt ∧ cellptr m = (CELL_COUNT - 1)%Z) ∨
   (source m !! Z.to_nat 1 = Some ch_lt ∧ cellptr m = 0%Z) →
   loop_step m 1 = None).
Proof.
  intros p m0 m.
  apply (tape_pointer_in_range false (bytes_of_string ">") p [] m 1).
  apply (reachable_next m0 m0 0 m 0); [apply reachable_start|reflexivity|reflexivity].
Defined.

(** ** Fatal moves *)

(** The line map [prepare] builds holds the line of every source byte. *)
Lemma prepared_lines src p i :
  prepare src = Some p → i < length src →
  array_get (pr_lines p) i = Some (line_of src i).
Proof.
  rewrite prepare_defined. intros [= <-] Hi. simpl.
  unfold array_get.
  by rewrite (inv_lines _ _ _ (scan_inv_final src) i Hi).
Qed.

Lemma execute_from_return fuel m pc m' ok :
  (pc <? source_size m)%Z = true → body m pc = Return m' ok →
  execute_from (S fuel) m pc = Finished m' ok ∧ executed (S fuel) m pc = [pc].
Proof. intros Hlt Hb. simpl. by rewrite Hlt, Hb. Qed.

(** C3. When the byte at [pc] is ['>'] and the Tape Pointer is at the last
    cell, or the byte is ['<'] and the Tape Pointer is at cell 0, [execute]
    returns [false]; [stderr] has grown by exactly one message, the bounds
    message that names the line of that byte; the loop processes no offset
    after [pc]; and the tape, the Tape Pointer, [stdout] and the unread input
    are left as they were. *)
Theorem move_past_edge_is_fatal (m : machine) (pc : Z) (fuel : nat)
  (Hpc : (0 ≤ pc < source_size m)%Z)
  (Hlines : ∃ p, prepare (source m) = Some p ∧ lines m = pr_lines p) :
  (source m !! Z.to_nat pc = Some ch_gt → cellptr m = (CELL_COUNT - 1)%Z →
   ∃ m', execute_from (S fuel) m pc = Finished m' false ∧
         m' = errorf m (RightOutOfBounds (line_of (source m) (Z.to_nat pc))) ∧
         stderr m' = stderr m ++ [RightOutOfBounds (line_of (source m) (Z.to_nat pc))] ∧
         executed (S fuel) m pc = [pc] ∧
         cells m' = cells m ∧ cellptr m' = cellptr m ∧
         stdout m' = stdout m ∧ stdin m' = stdin m) ∧
  (source m !! Z.to_nat pc = Some ch_lt → cellptr m = 0%Z →
   ∃ m', execute_from (S fuel) m pc = Finished m' false ∧
         m' = errorf m (LeftOutOfBounds (line_of (source m) (Z.to_nat pc))) ∧
         stderr m' = stderr m ++ [LeftOutOfBounds (line_of (source m) (Z.to_nat pc))] ∧
         executed (S fuel) m pc = [pc] ∧
         cells m' = cells m ∧ cellptr m' = cellptr m ∧
         stdout m' = stdout m ∧ stdin m' = stdin m).
Proof.
  destruct Hlines as (p & Hp & Hl).
  assert (array_get (lines m) (Z.to_nat pc)
          = Some (line_of (source m) (Z.to_nat pc))) as Hln.
  { rewrite Hl. apply (prepared_lines _ _ _ Hp). unfold source_size in Hpc. lia. }
  assert ((pc <? source_size m)%Z = true) as Hlt by (apply Z.ltb_lt; lia).
  split; intros Hs Hptr.
  - assert (body m pc = Return (errorf m (RightOutOfBounds
              (line_of (source m) (Z.to_nat pc)))) false) as Hb.
    { body_at Hs. rewrite Hptr, Hln. done. }
    destruct (execute_from_return fuel m pc _ _ Hlt Hb) as [He Hx].
    refine (ex_intro _ _ (conj He (conj eq_refl (conj eq_refl (conj Hx _))))).
    by cbn [errorf cells cellptr stdout stdin].
  - assert (body m pc = Return (errorf m (LeftOutOfBounds
              (line_of (source m) (Z.to_nat pc)))) false) as Hb.
    { body_at Hs. rewrite Hptr, Hln. done. }
    destruct (execute_from_return fuel m pc _ _ Hlt Hb) as [He Hx].
    refine (ex_intro _ _ (conj He (conj eq_refl (conj eq_refl (conj Hx _))))).
    by cbn [errorf cells cellptr stdout stdin].
Qed.

Lemma move_past_edge_is_fatal_witness :
  let mr := MkMachine (replicate (Z.to_nat CELL_COUNT) 0%Z) (CELL_COUNT - 1) false
                      (bytes_of_string ">") [Some 1] [None] [] [] [] in
  let ml := MkMachine (replicate (Z.to_nat CELL_COUNT) 0%Z) 0 false
                      (bytes_of_string "+
<") [Some 1; Some 1; Some 2] [None; None; None] [] [] [] in
  (∃ m', execute_from 1 mr 0 = Finished m' false ∧
         m' = errorf mr (RightOutOfBounds (line_of (source mr) (Z.to_nat 0))) ∧
         stderr m' = stderr mr ++ [RightOutOfBounds (line_of (source mr) (Z.to_nat 0))] ∧
         executed 1 mr 0 = [0%Z] ∧
         cells m' = cells mr ∧ cellptr m' = cellptr mr ∧
         stdout m' = stdout mr ∧ stdin m' = stdin mr) ∧
  (∃ m', execute_from 1 ml 2 = Finished m' false ∧
         m' = errorf ml (LeftOutOfBounds (line_of (source ml) (Z.to_nat 2))) ∧
         stderr m' = stderr ml ++ [LeftOutOfBounds (line_of (source ml) (Z.to_nat 2))] ∧
         executed 1 ml 2 = [2%Z] ∧
         cells m' = cells ml ∧ cellptr m' = cellptr ml ∧
         stdout m' = stdout ml ∧ stdin m' = stdin ml) ∧
  line_of (source mr) (Z.to_nat 0) = 1 ∧ line_of (source ml) (Z.to_nat 2) = 2.
Proof.
  intros mr ml. split; [|split; [|by vm_compute]].
  - apply (move_past_edge_is_fatal mr 0 0); [done| |reflexivity|reflexivity].
    by exists (MkPrepared [Some 1] [None] [] true).
  - apply (move_past_edge_is_fatal ml 2 0); [done| |reflexivity|reflexivity].
    by exists (MkPrepared [Some 1; Some 1; Some 2] [None; None; None] [] true).
Defined.

(** ** The input instruction *)

(** C7. At a [','] with the Tape Pointer inside the tape: when [fgetc]
    delivers a byte, the current cell holds that byte afterwards and the byte
    is consumed; at end-of-stream nothing changes, neither the tape nor
    [stderr]; in both cases the loop goes on with the next offset. *)
Theorem input_instruction (m : machine) (pc : Z)
  (Hs : source m !! Z.to_nat pc = Some ch_comma)
  (Hpc : (0 ≤ pc < source_size m)%Z)
  (Hok : tape_ok m) :
  (∀ c rest, stdin m = c :: rest → (0 ≤ c < 256)%Z →
     ∃ m', loop_step m pc = Some (m', size_wrap (pc + 1)) ∧
           cells m' !! Z.to_nat (cellptr m') = Some c ∧
           cellptr m' = cellptr m ∧ stdin m' = rest ∧ stderr m' = stderr m) ∧
  (stdin m = [] → loop_step m pc = Some (m, size_wrap (pc + 1))).
Proof.
  assert ((pc <? source_size m)%Z = true) as Hlt by (apply Z.ltb_lt; lia).
  destruct (tape_ok_lookup m Hok) as [v Hv].
  unfold loop_step. rewrite Hlt. split.
  - intros c rest Hin Hc. body_at Hs. rewrite Hin, Hv.
    eexists. split; [done|]. cbn [cells cellptr stdin stderr set_cell with_cells with_stdin].
    split_and!; [|done..].
    rewrite list_lookup_insert_eq by (by eapply lookup_lt_Some).
    unfold u8_wrap. by rewrite Z.mod_small.
  - intros Hin. body_at Hs. by rewrite Hin.
Qed.

Lemma input_instruction_witness :
  let m := boot false (bytes_of_string ",") (MkPrepared [Some 1] [None] [] true)
                [65%Z] in
  (∀ c rest, stdin m = c :: rest → (0 ≤ c < 256)%Z →
     ∃ m', loop_step m 0 = Some (m', size_wrap (0 + 1)) ∧
           cells m' !! Z.to_nat (cellptr m') = Some c ∧
           cellptr m' = cellptr m ∧ stdin m' = rest ∧ stderr m' = stderr m) ∧
  (stdin m = [] → loop_step m 0 = Some (m, size_wrap (0 + 1))).
Proof.
  intros m. apply (input_instruction m 0); [reflexivity|done|apply tape_ok_boot].
Defined.

(** ** Running several iterations *)

Lemma loop_step_next m pc m' pcb :
  (pc < source_size m)%Z → body m pc = Next m' pcb →
  loop_step m pc = Some (m', size_wrap (pcb + 1)).
Proof.
  intros Hlt Hb. unfold loop_step.
  destruct (Z.ltb_spec pc (source_size m)); [|lia]. by rewrite Hb.
Qed.

Lemma execute_from_step fuel m pc m' pc' :
  loop_step m pc = Some (m', pc') →
  execute_from (S fuel) m pc = execute_from fuel m' pc' ∧
  executed (S fuel) m pc = pc :: executed fuel m' pc'.
Proof.
  unfold loop_step. simpl.
  destruct (pc <? source_size m)%Z; [|done].
  destruct (body m pc) as [m1 pc1| |]; [|done..].
  by intros [= <- <-].
Qed.

Lemma execute_from_steps k fuel m pc m' pc' :
  loop_steps k m pc = Some (m', pc') →
  execute_from (k + fuel) m pc = execute_from fuel m' pc'.
Proof.
  revert m pc. induction k as [|k IH]; intros m pc; simpl loop_steps.
  - by intros [= <- <-].
  - destruct (loop_step m pc) as [[m1 pc1]|] eqn:Hstep; [|done].
    intros Hk. replace (S k + fuel) with (S (k + fuel)) by lia.
    destruct (execute_from_step (k + fuel) _ _ _ _ Hstep) as [-> _].
    by apply IH.
Qed.

Lemma source_lookup_lt m pc c :
  (0 ≤ pc)%Z → source m !! Z.to_nat pc = Some c → (pc < source_size m)%Z.
Proof.
  intros Hpc Hc. apply lookup_lt_Some in Hc. unfold source_size. lia.
Qed.

Lemma set_cell_same m v :
  cells m !! Z.to_nat (cellptr m) = Some v → set_cell m v = m.
Proof.
  intros Hv. destruct m. unfold set_cell, with_cells. simpl in *.
  f_equal. by apply list_insert_id.
Qed.

Lemma set_cell_twice m a b : set_cell (set_cell m a) b = set_cell m b.
Proof.
  unfold set_cell, with_cells. simpl. f_equal. apply list_insert_insert_eq.
Qed.

Lemma body_inc m pc v :
  source m !! Z.to_nat pc = Some ch_plus →
  cells m !! Z.to_nat (cellptr m) = Some v →
  body m pc = Next (set_cell m (u8_wrap (v + 1))) pc.
Proof. intros Hs Hv. body_at Hs. by rewrite Hv. Qed.

Lemma body_dec m pc v :
  source m !! Z.to_nat pc = Some ch_minus →
  cells m !! Z.to_nat (cellptr m) = Some v →
  body m pc = Next (set_cell m (u8_wrap (v - 1))) pc.
Proof. intros Hs Hv. body_at Hs. by rewrite Hv. Qed.

(** [k] consecutive ['+'] add [k] to the current cell, modulo 256. *)
Lemma inc_steps k m pc v :
  (0 ≤ pc)%Z → (source_size m < SIZE_MODULUS)%Z →
  cells m !! Z.to_nat (cellptr m) = Some v →
  (∀ i, i < S k → source m !! (Z.to_nat pc + i) = Some ch_plus) →
  loop_steps (S k) m pc =
  Some (set_cell m (u8_wrap (v + Z.of_nat (S k))), (pc + Z.of_nat (S k))%Z).
Proof.
  revert m pc v. induction k as [|k IH]; intros m pc v Hpc Hsz Hv Hsrc.
  - pose proof (Hsrc 0 (Nat.lt_0_succ _)) as H0. rewrite Nat.add_0_r in H0.
    pose proof (source_lookup_lt _ _ _ Hpc H0) as Hlt.
    simpl loop_steps.
    rewrite (loop_step_next _ _ _ _ Hlt (body_inc _ _ _ H0 Hv)).
    by rewrite size_wrap_small by lia.
  - pose proof (Hsrc 0 (Nat.lt_0_succ _)) as H0. rewrite Nat.add_0_r in H0.
    pose proof (source_lookup_lt _ _ _ Hpc H0) as Hlt.
    change (loop_steps (S (S k)) m pc)
      with (match loop_step m pc with
            | Some (m', pc') => loop_steps (S k) m' pc'
            | None => None
            end).
    rewrite (loop_step_next _ _ _ _ Hlt (body_inc _ _ _ H0 Hv)).
    rewrite size_wrap_small by lia.
    rewrite (IH (set_cell m (u8_wrap (v + 1))) (pc + 1)%Z (u8_wrap (v + 1))).
    + rewrite set_cell_twice. f_equal. f_equal; [|lia]. f_equal.
      unfold u8_wrap. rewrite Zplus_mod_idemp_l. f_equal. lia.
    + lia.
    + done.
    + simpl. apply list_lookup_insert_eq. by eapply lookup_lt_Some.
    + intros i Hi. simpl.
      replace (Z.to_nat (pc + 1) + i) with (Z.to_nat pc + S i) by lia.
      apply Hsrc. lia.
Qed.

Lemma set_cell_lookup m v x :
  cells m !! Z.to_nat (cellptr m) = Some x →
  cells (set_cell m v) !! Z.to_nat (cellptr m) = Some v.
Proof.
  intros Hx. cbn [set_cell with_cells cells].
  apply list_lookup_insert_eq. by eapply lookup_lt_Some.
Qed.

Lemma set_cell_lookup_ne m v i :
  i ≠ Z.to_nat (cellptr m) → cells (set_cell m v) !! i = cells m !! i.
Proof.
  intros Hi. cbn [set_cell with_cells cells]. by apply list_lookup_insert_ne.
Qed.

(** C8. Cell arithmetic is arithmetic modulo 256.  Over 256 consecutive
    ['+'] the current cell holds [(v + k) mod 256] after the first [k] of
    them, for every [k], and after all 256 the machine is as it was, with
    the current cell at its original value [v].  A ['-'] on a cell holding
    0 leaves 255 in that cell.  A ['+'] on a cell holding [v] leaves
    [(v + 1) mod 256] in it and a ['-'] leaves [(v - 1) mod 256], whatever
    [v] is; in each case the other cells, the Tape Pointer and [stderr] are
    untouched and the loop goes on with the next offset. *)
Theorem cell_arithmetic_wraps (m : machine) (pc : Z) (v : Z)
  (Hpc : (0 ≤ pc)%Z) (Hsz : (source_size m < SIZE_MODULUS)%Z)
  (Hv : cells m !! Z.to_nat (cellptr m) = Some v)
  (Hu8 : (0 ≤ v < 256)%Z) :
  ((∀ i, i < 256 → source m !! (Z.to_nat pc + i) = Some ch_plus) →
   loop_steps 256 m pc = Some (m, (pc + 256)%Z) ∧
   ∀ k, k ≤ 256 →
     ∃ mk, loop_steps k m pc = Some (mk, (pc + Z.of_nat k)%Z) ∧
           cells mk !! Z.to_nat (cellptr m) = Some ((v + Z.of_nat k) mod 256)%Z ∧
           (∀ i, i ≠ Z.to_nat (cellptr m) → cells mk !! i = cells m !! i) ∧
           cellptr mk = cellptr m ∧ stderr mk = stderr m) ∧
  (source m !! Z.to_nat pc = Some ch_minus → v = 0%Z →
   ∃ m', loop_step m pc = Some (m', (pc + 1)%Z) ∧ m' = set_cell m 255 ∧
         cells m' !! Z.to_nat (cellptr m) = Some 255%Z ∧
         (∀ i, i ≠ Z.to_nat (cellptr m) → cells m' !! i = cells m !! i) ∧
         cellptr m' = cellptr m ∧ stderr m' = stderr m) ∧
  (source m !! Z.to_nat pc = Some ch_plus →
   ∃ m', loop_step m pc = Some (m', (pc + 1)%Z) ∧
         m' = set_cell m ((v + 1) mod 256) ∧
         cells m' !! Z.to_nat (cellptr m) = Some ((v + 1) mod 256)%Z ∧
         (∀ i, i ≠ Z.to_nat (cellptr m) → cells m' !! i = cells m !! i) ∧
         cellptr m' = cellptr m ∧ stderr m' = stderr m) ∧
  (source m !! Z.to_nat pc = Some ch_minus →
   ∃ m', loop_step m pc = Some (m', (pc + 1)%Z) ∧
         m' = set_cell m ((v - 1) mod 256) ∧
         cells m' !! Z.to_nat (cellptr m) = Some ((v - 1) mod 256)%Z ∧
         (∀ i, i ≠ Z.to_nat (cellptr m) → cells m' !! i = cells m !! i) ∧
         cellptr m' = cellptr m ∧ stderr m' = stderr m).
Proof.
  assert (∀ w pc', loop_step m pc = Some (set_cell m w, pc') →
          ∃ m', loop_step m pc = Some (m', pc') ∧ m' = set_cell m w ∧
                cells m' !! Z.to_nat (cellptr m) = Some w ∧
                (∀ i, i ≠ Z.to_nat (cellptr m) → cells m' !! i = cells m !! i) ∧
                cellptr m' = cellptr m ∧ stderr m' = stderr m) as Hstore.
  { intros w pc' H.
    refine (ex_intro _ _ (conj H (conj eq_refl (conj _ (conj _ (conj eq_refl eq_refl)))))).
    - by apply (set_cell_lookup m w v).
    - intros i Hi. by apply set_cell_lookup_ne. }
  refine (conj _ (conj _ (conj _ _))).
  - intros Hsrc. split.
    + rewrite (inc_steps 255 m pc v Hpc Hsz Hv Hsrc).
      f_equal. f_equal.
      replace (u8_wrap (v + Z.of_nat 256)) with v; [by apply set_cell_same|].
      unfold u8_wrap. change (Z.of_nat 256) with (1 * 256)%Z.
      by rewrite Z_mod_plus_full, Z.mod_small.
    + intros [|k] Hk.
      * refine (ex_intro _ m (conj _ (conj _ (conj _ (conj eq_refl eq_refl))))).
        -- cbn [loop_steps]. do 2 f_equal. lia.
        -- rewrite Hv. f_equal. rewrite Z.add_0_r. symmetry. by apply Z.mod_small.
        -- done.
      * assert (∀ i, i < S k → source m !! (Z.to_nat pc + i) = Some ch_plus)
          as Hsrc' by (intros i Hi; apply Hsrc; lia).
        refine (ex_intro _ _ (conj (inc_steps k m pc v Hpc Hsz Hv Hsrc')
                  (conj _ (conj _ (conj eq_refl eq_refl))))).
        -- by apply (set_cell_lookup m _ v).
        -- intros i Hi. by apply set_cell_lookup_ne.
  - intros Hs ->. apply Hstore.
    pose proof (source_lookup_lt _ _ _ Hpc Hs) as Hlt.
    rewrite (loop_step_next _ _ _ _ Hlt (body_dec _ _ _ Hs Hv)).
    by rewrite size_wrap_small by lia.
  - intros Hs. apply Hstore.
    pose proof (source_lookup_lt _ _ _ Hpc Hs) as Hlt.
    rewrite (loop_step_next _ _ _ _ Hlt (body_inc _ _ _ Hs Hv)).
    by rewrite size_wrap_small by lia.
  - intros Hs. apply Hstore.
    pose proof (source_lookup_lt _ _ _ Hpc Hs) as Hlt.
    rewrite (loop_step_next _ _ _ _ Hlt (body_dec _ _ _ Hs Hv)).
    by rewrite size_wrap_small by lia.
Qed.

Lemma cell_arithmetic_wraps_witness :
  let mp := boot false (replicate 256 ch_plus)
                 (MkPrepared (replicate 256 (Some 1)) (replicate 256 None) [] true)
                 [] in
  let mm := boot false (bytes_of_string "-")
                 (MkPrepared [Some 1] [None] [] true) [] in
  (loop_steps 256 mp 0 = Some (mp, (0 + 256)%Z) ∧
   ∀ k, k ≤ 256 →
     ∃ mk, loop_steps k mp 0 = Some (mk, (0 + Z.of_nat k)%Z) ∧
           cells mk !! Z.to_nat (cellptr mp) = Some ((0 + Z.of_nat k) mod 256)%Z ∧
           (∀ i, i ≠ Z.to_nat (cellptr mp) → cells mk !! i = cells mp !! i) ∧
           cellptr mk = cellptr mp ∧ stderr mk = stderr mp) ∧
  (∃ m', loop_step mm 0 = Some (m', (0 + 1)%Z) ∧ m' = set_cell mm 255 ∧
         cells m' !! Z.to_nat (cellptr mm) = Some 255%Z ∧
         (∀ i, i ≠ Z.to_nat (cellptr mm) → cells m' !! i = cells mm !! i) ∧
         cellptr m' = cellptr mm ∧ stderr m' = stderr mm).
Proof.
  intros mp mm. split.
  - refine (proj1 (cell_arithmetic_wraps mp 0 0 _ _ _ _) _);
      [lia|done|apply boot_cell_zero|lia|].
    intros i Hi. apply lookup_replicate_2. lia.
  - refine (proj1 (proj2 (cell_arithmetic_wraps mm 0 0 _ _ _ _)) _ _);
      [lia|done|apply boot_cell_zero|lia|reflexivity|reflexivity].
Defined.

(** ** Loops *)

(** In the table [prepare] builds for a balanced buffer, a ['['] and its
    partner point at each other. *)
Lemma prepared_jumps_open src p i :
  prepare src = Some p → pr_success p = true → src !! i = Some ch_open →
  ∃ j, matched src i j ∧
       array_get (pr_jumps p) i = Some j ∧ array_get (pr_jumps p) j = Some i.
Proof.
  intros Hp Hs Ho.
  pose proof (proj1 (prepare_success_iff src p Hp) Hs) as Hb.
  rewrite prepare_defined in Hp. injection Hp as <-. simpl.
  destruct (scan_follows_nesting src 0 (prepare_init (length src)) 0 Hb)
    as (Hlen & _ & _).
  apply length_zero_iff_nil in Hlen.
  assert (i < length src) as Hi by (by eapply lookup_lt_Some).
  destruct (inv_opens _ _ _ (scan_inv_final src) i Hi Ho) as (j & _ & Hm & H1 & H2).
  { rewrite Hlen. apply not_elem_of_nil. }
  by exists j.
Qed.

Lemma prepared_jumps_pair m i j :
  prepared_for m → matched (source m) i j →
  array_get (jumps m) i = Some j ∧ array_get (jumps m) j = Some i.
Proof.
  intros (p & Hp & Hs & _ & Hj) Hm. rewrite Hj.
  destruct (prepared_jumps_open _ _ i Hp Hs) as (j' & Hm' & H1 & H2).
  { by destruct Hm as (_ & ? & _). }
  by rewrite (matched_close_unique _ _ _ _ Hm Hm').
Qed.

Lemma body_open_zero m pc j :
  source m !! Z.to_nat pc = Some ch_open →
  cells m !! Z.to_nat (cellptr m) = Some 0%Z →
  array_get (jumps m) (Z.to_nat pc) = Some j →
  body m pc = Next m (Z.of_nat j).
Proof. intros Hs Hv Hj. body_at Hs. by rewrite Hv, Hj. Qed.

(** C1, as the code has it.  At a ['['] of a prepared machine: when the
    current cell is zero, [pc] is set to the offset [j] of the matching
    [']'] and the loop's [++pc] then moves on, so that the next byte
    processed is the one after the [']'] (the [']'] itself is not
    processed, and neither is the loop body); when the current cell is not
    zero, the next byte processed is the first of the loop body.  In both
    cases the machine is unchanged. *)
Theorem loop_open_step (m : machine) (pc : Z) (v : Z)
  (Hpc : (0 ≤ pc)%Z) (Hsz : (source_size m < SIZE_MODULUS)%Z)
  (Hs : source m !! Z.to_nat pc = Some ch_open)
  (Hv : cells m !! Z.to_nat (cellptr m) = Some v)
  (Hprep : prepared_for m) :
  (v = 0%Z →
   ∃ j, matched (source m) (Z.to_nat pc) j ∧
        body m pc = Next m (Z.of_nat j) ∧
        loop_step m pc = Some (m, (Z.of_nat j + 1)%Z)) ∧
  (v ≠ 0%Z → loop_step m pc = Some (m, (pc + 1)%Z)).
Proof.
  pose proof (source_lookup_lt _ _ _ Hpc Hs) as Hlt. split.
  - intros ->.
    destruct Hprep as (p & Hp & Hsucc & Hl & Hj).
    destruct (prepared_jumps_open _ _ _ Hp Hsucc Hs) as (j & Hm & H1 & _).
    assert (body m pc = Next m (Z.of_nat j)) as Hb.
    { apply body_open_zero; [done..|]. by rewrite Hj. }
    exists j. split_and!; [done..|].
    rewrite (loop_step_next _ _ _ _ Hlt Hb). f_equal. f_equal.
    apply size_wrap_small.
    destruct Hm as (_ & _ & Hc & _). apply lookup_lt_Some in Hc.
    unfold source_size in Hsz. lia.
  - intros Hne.
    assert (body m pc = Next m pc) as Hb.
    { body_at Hs. rewrite Hv. by destruct (Z.eqb_spec v 0). }
    rewrite (loop_step_next _ _ _ _ Hlt Hb).
    by rewrite size_wrap_small by lia.
Qed.

Lemma loop_open_step_witness :
  let m := boot false (bytes_of_string "[+]")
                (MkPrepared [Some 1; Some 1; Some 1] [Some 2; None; Some 0] [] true)
                [] in
  (0%Z = 0%Z →
   ∃ j, matched (source m) (Z.to_nat 0) j ∧
        body m 0 = Next m (Z.of_nat j) ∧
        loop_step m 0 = Some (m, (Z.of_nat j + 1)%Z)) ∧
  (0%Z ≠ 0%Z → loop_step m 0 = Some (m, (0 + 1)%Z)).
Proof.
  intros m. apply (loop_open_step m 0 0); [lia|done|reflexivity|reflexivity|].
  by exists (MkPrepared [Some 1; Some 1; Some 1] [Some 2; None; Some 0] [] true).
Defined.

(** C1, as stated, fails on the source [[]] run from the initial state: the
    cell is zero and the jump table sends offset 0 to the [']'] at offset 1,
    yet the next offset the loop tests is 2, the only offset processed is 0,
    and [execute] returns [true] with the machine unchanged. *)
Lemma loop_open_zero_skips_the_close :
  let src := bytes_of_string "[]" in
  let p := MkPrepared [Some 1; Some 1] [Some 1; Some 0] [] true in
  let m := boot false src p [] in
  prepare src = Some p ∧
  cells m !! Z.to_nat (cellptr m) = Some 0%Z ∧
  array_get (jumps m) 0 = Some 1 ∧
  loop_step m 0 = Some (m, 2%Z) ∧
  loop_step m 0 ≠ Some (m, 1%Z) ∧
  executed 8 m 0 = [0%Z] ∧
  (1%Z ∉ executed 8 m 0) ∧
  execute 8 m = Finished m true.
Proof.
  intros src p m.
  assert (cells m !! Z.to_nat (cellptr m) = Some 0%Z) as Hcell.
  { apply boot_cell_zero. }
  assert (body m 0 = Next m 1%Z) as Hb.
  { by apply (body_open_zero m 0 1). }
  assert (loop_step m 0 = Some (m, 2%Z)) as Hstep.
  { by apply (loop_step_next m 0 m 1). }
  destruct (execute_from_step 7 _ _ _ _ Hstep) as [Hrun Hexe].
  assert (executed 8 m 0 = [0%Z]) as Hlist by (by rewrite Hexe).
  split_and!; [reflexivity|done|reflexivity|done| |done| |].
  - rewrite Hstep. intros H.
    apply (f_equal (λ o : option (machine * Z),
                      match o with Some (_, z) => z | None => 0%Z end)) in H.
    cbv beta iota in H. lia.
  - rewrite Hlist. intros H%list_elem_of_singleton. lia.
  - unfold execute. by rewrite Hrun.
Qed.

(** C10. At a [']'] whose partner is the ['['] at offset 0, [pc] becomes
    [0 - 1] in [size_t] arithmetic, that is [SIZE_MODULUS - 1]; the loop's
    [++pc] wraps it to 0, the loop condition holds there, and the next byte
    processed is the ['['] at offset 0. *)
Theorem loop_close_to_offset_zero (m : machine) (pc : Z) (fuel : nat)
  (Hpc : (0 ≤ pc)%Z)
  (Hprep : prepared_for m)
  (Hm : matched (source m) 0 (Z.to_nat pc)) :
  body m pc = Next m (SIZE_MODULUS - 1)%Z ∧
  size_wrap (SIZE_MODULUS - 1 + 1) = 0%Z ∧
  loop_step m pc = Some (m, 0%Z) ∧
  (0 <? source_size m)%Z = true ∧
  source m !! Z.to_nat 0 = Some ch_open ∧
  executed (S (S fuel)) m pc = pc :: 0%Z :: tail (executed (S fuel) m 0).
Proof.
  destruct (prepared_jumps_pair m 0 (Z.to_nat pc) Hprep Hm) as [_ Hj].
  destruct Hm as (_ & Ho & Hc & _).
  pose proof (source_lookup_lt _ _ _ Hpc Hc) as Hlt.
  assert (body m pc = Next m (SIZE_MODULUS - 1)%Z) as Hb.
  { body_at Hc. by rewrite Hj. }
  assert (loop_step m pc = Some (m, 0%Z)) as Hstep.
  { by rewrite (loop_step_next _ _ _ _ Hlt Hb). }
  assert ((0 <? source_size m)%Z = true) as H0 by (apply Z.ltb_lt; lia).
  split_and!; [done..|].
  destruct (execute_from_step (S fuel) _ _ _ _ Hstep) as [_ ->].
  f_equal. simpl. by rewrite H0.
Qed.

Lemma loop_close_to_offset_zero_witness :
  let m := boot false (bytes_of_string "[+]")
                (MkPrepared [Some 1; Some 1; Some 1] [Some 2; None; Some 0] [] true)
                [] in
  body m 2 = Next m (SIZE_MODULUS - 1)%Z ∧
  size_wrap (SIZE_MODULUS - 1 + 1) = 0%Z ∧
  loop_step m 2 = Some (m, 0%Z) ∧
  (0 <? source_size m)%Z = true ∧
  source m !! Z.to_nat 0 = Some ch_open ∧
  executed 2 m 2 = 2%Z :: 0%Z :: tail (executed 1 m 0).
Proof.
  intros m. apply (loop_close_to_offset_zero m 2 0); [lia| |].
  - by exists (MkPrepared [Some 1; Some 1; Some 1] [Some 2; None; Some 0] [] true).
  - unfold matched. split_and!; [lia|reflexivity|reflexivity|reflexivity].
Defined.

(** ** The dump of ['#'] *)

(** A dump loop that starts inside a tape of [len] cells and is to run past
    its end reads the cell at offset [len]. *)
Lemma dump_loop_past_end n i m :
  (0 ≤ i ≤ Z.of_nat (length (cells m)))%Z →
  (Z.of_nat (length (cells m)) < i + Z.of_nat n)%Z →
  (Z.of_nat (length (cells m)) < SIZE_MODULUS - 1)%Z →
  ∃ m', dump_loop n i m = Undefined m' (CellOutOfRange (Z.of_nat (length (cells m)))).
Proof.
  revert i m. induction n as [|n IH]; intros i m Hi Hn Hsz; [lia|].
  simpl. destruct (cells m !! Z.to_nat i) as [v|] eqn:Hv.
  - apply lookup_lt_Some in Hv.
    rewrite size_wrap_small by lia.
    apply (IH (i + 1)%Z (print m (DumpRow i v (i =? cellptr m)%Z))); simpl; lia.
  - apply lookup_ge_None_1 in Hv.
    exists m. do 2 f_equal. lia.
Qed.

(** A dump loop that stays inside the tape reads only cells of the tape. *)
Lemma dump_loop_inside n i m :
  (0 ≤ i)%Z → (i + Z.of_nat n ≤ Z.of_nat (length (cells m)))%Z →
  (Z.of_nat (length (cells m)) < SIZE_MODULUS - 1)%Z →
  ∃ m', dump_loop n i m = Next m' 0%Z.
Proof.
  revert i m. induction n as [|n IH]; intros i m Hi Hn Hsz; simpl; [by eexists|].
  destruct (lookup_lt_is_Some_2 (cells m) (Z.to_nat i)) as [v ->]; [lia|].
  rewrite size_wrap_small by lia.
  apply (IH (i + 1)%Z (print m (DumpRow i v (i =? cellptr m)%Z))); simpl; lia.
Qed.

Lemma dump_window ptr :
  (0 ≤ ptr < CELL_COUNT)%Z →
  Z.to_nat (dump_end ptr - dump_begin ptr) = 10 ∧
  (0 ≤ dump_begin ptr ≤ ptr)%Z ∧
  (ptr - 2 ≤ dump_begin ptr)%Z.
Proof.
  intros Hp. pose proof CELL_COUNT_small. unfold dump_end, dump_begin.
  destruct (Z.ltb_spec ptr 2); rewrite size_wrap_small by lia; lia.
Qed.

(** With the Tape Pointer among the last seven cells, the dump reads the
    cell at offset [CELL_COUNT], which is no cell of the tape. *)
Lemma dump_past_end m pc :
  tape_ok m → (CELL_COUNT - 7 ≤ cellptr m)%Z →
  ∃ m', dump m pc = Undefined m' (CellOutOfRange CELL_COUNT).
Proof.
  intros [Hlen Hptr] Hnear. pose proof CELL_COUNT_small as Hcc.
  destruct (dump_window (cellptr m)) as (Hten & Hb & Hb2); [lia|].
  unfold dump. rewrite Hten.
  destruct (dump_loop_past_end 10 (dump_begin (cellptr m)) (print m DumpHeader))
    as [m' Hm']; [cbn [cells print]; lia..|].
  rewrite Hm'. cbn [cells print]. rewrite Hlen. by exists m'.
Qed.

(** With the Tape Pointer before the last seven cells, the dump reads ten
    cells of the tape. *)
Lemma dump_inside m pc :
  tape_ok m → (cellptr m < CELL_COUNT - 7)%Z → ∃ m', dump m pc = Next m' pc.
Proof.
  intros [Hlen Hptr] Hfar. pose proof CELL_COUNT_small as Hcc.
  destruct (dump_window (cellptr m)) as (Hten & Hb & Hb2); [lia|].
  unfold dump. rewrite Hten.
  destruct (dump_loop_inside 10 (dump_begin (cellptr m)) (print m DumpHeader))
    as [m' Hm']; [cbn [cells print]; try lia..|].
  - unfold dump_begin in *. destruct (Z.ltb_spec (cellptr m) 2); lia.
  - rewrite Hm'. by exists m'.
Qed.

(** [k] consecutive ['>'] move the Tape Pointer [k] cells to the right, as
    long as it stays on the tape. *)
Lemma move_right_steps k m pc :
  (0 ≤ pc)%Z → (source_size m < SIZE_MODULUS)%Z →
  (0 ≤ cellptr m)%Z → (cellptr m + Z.of_nat k ≤ CELL_COUNT - 1)%Z →
  (∀ i, i < k → source m !! (Z.to_nat pc + i) = Some ch_gt) →
  loop_steps k m pc =
  Some (with_cellptr m (cellptr m + Z.of_nat k), (pc + Z.of_nat k)%Z).
Proof.
  revert m pc. induction k as [|k IH]; intros m pc Hpc Hsz Hp0 Hp Hsrc.
  - simpl. destruct m. unfold with_cellptr. simpl. f_equal. f_equal; [f_equal|]; lia.
  - pose proof (Hsrc 0 (Nat.lt_0_succ _)) as H0. rewrite Nat.add_0_r in H0.
    pose proof (source_lookup_lt _ _ _ Hpc H0) as Hlt.
    pose proof CELL_COUNT_small as Hcc.
    assert (body m pc = Next (with_cellptr m (cellptr m + 1)) pc) as Hb.
    { body_at H0. destruct (Z.eqb_spec (cellptr m) (CELL_COUNT - 1)); [lia|].
      by rewrite size_wrap_small by lia. }
    simpl loop_steps. rewrite (loop_step_next _ _ _ _ Hlt Hb).
    rewrite size_wrap_small by lia.
    rewrite (IH (with_cellptr m (cellptr m + 1)) (pc + 1)%Z);
      cbn [with_cellptr cellptr source source_size]; try lia.
    + unfold with_cellptr. cbn [cells cellptr debug source lines jumps stdin stdout stderr].
      f_equal. f_equal; [f_equal|]; lia.
    + done.
    + intros i Hi.
      replace (Z.to_nat (pc + 1) + i) with (Z.to_nat pc + S i) by lia.
      apply Hsrc. lia.
Qed.

Lemma nesting_inert_bytes d (l : list Z) :
  Forall (λ c, c ≠ ch_open ∧ c ≠ ch_close) l → nesting d l = Some d.
Proof.
  induction 1 as [|c l [Ho Hc] _ IH]; simpl; [done|].
  destruct (Z.eqb_spec c ch_open); [done|].
  by destruct (Z.eqb_spec c ch_close).
Qed.

(** A program of [k] bytes ['>'] followed by ['#'], run with [--debug] from
    the initial state, for [k] among the last seven cell offsets. *)
Lemma run_right_then_dump k p input :
  (CELL_COUNT - 7 ≤ Z.of_nat k ≤ CELL_COUNT - 1)%Z →
  ∃ m, execute (k + 1) (boot true (replicate k ch_gt ++ [ch_hash]) p input)
       = Crashed m (CellOutOfRange CELL_COUNT) ∧
       cellptr m = Z.of_nat k.
Proof.
  intros Hk. pose proof CELL_COUNT_small as Hcc.
  set (src := replicate k ch_gt ++ [ch_hash]).
  set (m0 := boot true src p input).
  assert (length src = S k) as Hlen.
  { unfold src. rewrite length_app, length_replicate. simpl. lia. }
  assert (source_size m0 = Z.of_nat (S k)) as Hsize.
  { unfold source_size, m0, boot. cbn [source]. by rewrite Hlen. }
  assert (loop_steps k m0 0 =
          Some (with_cellptr m0 (cellptr m0 + Z.of_nat k), (0 + Z.of_nat k)%Z))
    as Hsteps.
  { apply move_right_steps; [lia|lia|done|unfold m0, boot; cbn [cellptr]; lia|].
    intros i Hi. unfold m0, boot, src. cbn [source].
    rewrite lookup_app_l by (rewrite length_replicate; lia).
    apply lookup_replicate_2. lia. }
  unfold execute. rewrite (execute_from_steps k 1 _ _ _ _ Hsteps).
  set (m1 := with_cellptr m0 (cellptr m0 + Z.of_nat k)).
  assert (tape_ok m1) as Hok.
  { destruct (tape_ok_boot true src p input) as [H1 H2]. fold m0 in H1, H2.
    unfold tape_ok, m1, with_cellptr. cbn [cells cellptr].
    split; [done|]. rewrite H1. unfold m0, boot. cbn [cellptr]. lia. }
  assert (source m1 !! Z.to_nat (0 + Z.of_nat k) = Some ch_hash) as Hs.
  { unfold m1, with_cellptr, m0, boot, src. cbn [source].
    rewrite lookup_app_r by (rewrite length_replicate; lia).
    rewrite length_replicate.
    by replace (Z.to_nat (0 + Z.of_nat k) - k) with 0 by lia. }
  destruct (dump_past_end m1 (0 + Z.of_nat k)%Z Hok) as [m' Hm'].
  { unfold m1, with_cellptr, m0, boot. cbn [cellptr]. lia. }
  assert (body m1 (0 + Z.of_nat k) = Undefined m' (CellOutOfRange CELL_COUNT))
    as Hb.
  { body_at Hs. unfold m1 at 1, with_cellptr, m0 at 1, boot. cbn [debug negb].
    exact Hm'. }
  exists m'. split.
  - cbn [execute_from].
    replace (0 + Z.of_nat k <? source_size m1)%Z with true.
    + by rewrite Hb.
    + symmetry. apply Z.ltb_lt.
      change (source_size m1) with (source_size m0). lia.
  - destruct (dump_frame m1 (0 + Z.of_nat k)%Z) as (_ & Hptr & _).
    rewrite Hm' in Hptr. cbn [machine_of] in Hptr. rewrite Hptr.
    unfold m1, with_cellptr, m0, boot. cbn [cellptr]. lia.
Qed.

Lemma bfi_right_then_dump k :
  (CELL_COUNT - 7 ≤ Z.of_nat k ≤ CELL_COUNT - 1)%Z →
  ∃ m, main (k + 1) true (replicate k ch_gt ++ [ch_hash]) []
       = Some (Crashed m (CellOutOfRange CELL_COUNT)) ∧
       cellptr m = Z.of_nat k.
Proof.
  intros Hk.
  assert (balanced (replicate k ch_gt ++ [ch_hash])) as Hb.
  { apply nesting_inert_bytes, Forall_app. split.
    - apply Forall_replicate. by split.
    - by repeat constructor. }
  destruct (prepare (replicate k ch_gt ++ [ch_hash])) as [p|] eqn:Hp.
  - pose proof (proj2 (prepare_success_iff _ _ Hp) Hb) as Hs.
    destruct (run_right_then_dump k p [] Hk) as (m & Hrun & Hptr).
    exists m. unfold main. by rewrite Hp, Hs, Hrun.
  - by rewrite prepare_defined in Hp.
Qed.

(** C4, the code at a failing input.  The program of 29993 bytes ['>']
    followed by ['#'] is balanced, so [prepare] succeeds; run with
    [--debug], the dump starts at cell 29991 and is to read the ten cells
    before offset 30001; the read at offset 30000 = [CELL_COUNT] is outside
    the tape. *)
Theorem dump_reads_past_the_tape :
  ∃ m, main (Z.to_nat 29993 + 1) true
           (replicate (Z.to_nat 29993) ch_gt ++ [ch_hash]) []
       = Some (Crashed m (CellOutOfRange CELL_COUNT)) ∧
       cellptr m = 29993%Z ∧
       dump_begin (cellptr m) = 29991%Z ∧ dump_end (cellptr m) = 30001%Z.
Proof.
  destruct (bfi_right_then_dump (Z.to_nat 29993)) as (m & Hrun & Hptr).
  { unfold CELL_COUNT. lia. }
  rewrite Z2Nat.id in Hptr by lia.
  refine (ex_intro _ m (conj Hrun (conj Hptr _))).
  rewrite Hptr. split; reflexivity.
Qed.

(** ** Whole runs *)

Lemma prepare_balanced_quiet src p :
  balanced src → prepare src = Some p → pr_success p = true ∧ pr_errors p = [].
Proof.
  intros Hb Hp. split; [by apply (prepare_success_iff src p Hp)|].
  rewrite prepare_defined in Hp. injection Hp as <-. simpl.
  destruct (scan_follows_nesting src 0 (prepare_init (length src)) 0 Hb)
    as (Hlen & Herrs & _).
  apply length_zero_iff_nil in Hlen. by rewrite Hlen, Herrs.
Qed.

Lemma line_of_no_newline (src : list Z) i :
  Forall (λ c, c ≠ ch_newline) src → line_of src i = 1.
Proof.
  intros Hall. unfold line_of. f_equal. apply length_zero_iff_nil.
  apply (Forall_take _ i) in Hall.
  induction Hall as [|c l Hc _ IH]; [done|]. by rewrite filter_cons_False.
Qed.

(** The program of [CELL_COUNT] bytes ['>']: the last of them finds the Tape
    Pointer at the last cell. *)
Lemma bfi_right_off_the_tape k :
  Z.of_nat (S k) = CELL_COUNT →
  ∃ m, main (S k) false (replicate (S k) ch_gt) [] = Some (Finished m false) ∧
       stderr m = [RightOutOfBounds 1] ∧ stdout m = [] ∧
       cellptr m = (CELL_COUNT - 1)%Z.
Proof.
  intros Hk. pose proof CELL_COUNT_small as Hcc.
  set (src := replicate (S k) ch_gt).
  assert (balanced src) as Hb.
  { apply nesting_inert_bytes, Forall_replicate. by split. }
  destruct (prepare src) as [p|] eqn:Hp; [|by rewrite prepare_defined in Hp].
  destruct (prepare_balanced_quiet src p Hb Hp) as [Hs He].
  unfold main. rewrite Hp, Hs.
  set (m0 := boot false src p []).
  assert (length src = S k) as Hlen by apply length_replicate.
  assert (source_size m0 = Z.of_nat (S k)) as Hsize.
  { unfold source_size, m0, boot. cbn [source]. by rewrite Hlen. }
  assert (loop_steps k m0 0 =
          Some (with_cellptr m0 (cellptr m0 + Z.of_nat k), (0 + Z.of_nat k)%Z))
    as Hsteps.
  { apply move_right_steps; [lia|lia|done|unfold m0, boot; cbn [cellptr]; lia|].
    intros i Hi. unfold m0, boot, src. cbn [source].
    apply lookup_replicate_2. lia. }
  assert (execute_from (S k) m0 0 =
          execute_from 1 (with_cellptr m0 (cellptr m0 + Z.of_nat k))
                       (0 + Z.of_nat k)) as Hexec.
  { rewrite <- (execute_from_steps k 1 _ _ _ _ Hsteps). f_equal. lia. }
  unfold execute. rewrite Hexec.
  set (m1 := with_cellptr m0 (cellptr m0 + Z.of_nat k)).
  assert (source m1 !! Z.to_nat (0 + Z.of_nat k) = Some ch_gt) as Hsrc.
  { unfold m1, with_cellptr, m0, boot, src. cbn [source].
    apply lookup_replicate_2. lia. }
  assert (array_get (lines m1) (Z.to_nat (0 + Z.of_nat k)) = Some 1) as Hln.
  { unfold m1, with_cellptr, m0, boot. cbn [lines].
    rewrite (prepared_lines src p _ Hp) by lia.
    f_equal. apply line_of_no_newline, Forall_replicate. done. }
  assert (body m1 (0 + Z.of_nat k)
          = Return (errorf m1 (RightOutOfBounds 1)) false) as Hbody.
  { body_at Hsrc. rewrite Hln.
    replace (cellptr m1 =? CELL_COUNT - 1)%Z with true; [done|].
    symmetry. apply Z.eqb_eq.
    unfold m1, with_cellptr, m0, boot. cbn [cellptr]. lia. }
  destruct (execute_from_return 0 m1 (0 + Z.of_nat k)
              (errorf m1 (RightOutOfBounds 1)) false) as [Hrun _]; [|done|].
  { apply Z.ltb_lt. change (source_size m1) with (source_size m0). lia. }
  rewrite Hrun. eexists. split; [done|].
  unfold errorf, m1, with_cellptr, m0, boot. cbn [stderr stdout cellptr].
  rewrite He. split_and!; [done|done|lia].
Qed.

(** Runs of small programs from the initial state. *)

Example run_empty_program :
  match main 0 false [] [] with
  | Some (Finished m ok) => ok = true ∧ stdout m = [] ∧ stderr m = []
  | _ => False
  end.
Proof. vm_compute. done. Qed.

Example run_plus_plus_dot :
  match main 3 false (bytes_of_string "++.") [] with
  | Some (Finished m ok) => ok = true ∧ stdout m = [OutByte 2] ∧ stderr m = []
  | _ => False
  end.
Proof. vm_compute. done. Qed.

Example run_clear_loop :
  match main 5 false (bytes_of_string "+[-]") [] with
  | Some (Finished m ok) =>
      ok = true ∧ stdout m = [] ∧ cells m !! 0 = Some 0%Z ∧ stderr m = []
  | _ => False
  end.
Proof. vm_compute. done. Qed.

Example run_lone_close :
  match main 5 false (bytes_of_string "]") [] with
  | Some (Finished m ok) =>
      ok = false ∧ stdout m = [] ∧ stderr m = [UnbalancedClose 1]
  | _ => False
  end.
Proof. vm_compute. done. Qed.

Example run_thirty_thousand_right :
  ∃ m, main (S (Z.to_nat 29999)) false (replicate (S (Z.to_nat 29999)) ch_gt) []
       = Some (Finished m false) ∧
       stderr m = [RightOutOfBounds 1] ∧ stdout m = [] ∧
       cellptr m = (CELL_COUNT - 1)%Z.
Proof. apply (bfi_right_off_the_tape (Z.to_nat 29999)). unfold CELL_COUNT. lia. Qed.

(** * Further properties of [prepare] *)

(** X1.  The line map is complete for every source buffer, balanced or not:
    [prepare] returns, both tables have [source_size] cells, and [lines[i]]
    is one more than the number of newline bytes before offset [i]. *)
Theorem prepare_line_map (src : list Z) :
  ∃ p, prepare src = Some p ∧
       length (pr_lines p) = length src ∧ length (pr_jumps p) = length src ∧
       ∀ i, i < length src → array_get (pr_lines p) i = Some (line_of src i).
Proof.
  pose proof (prepare_defined src) as Hp. cbv zeta in Hp.
  pose proof (scan_inv_final src) as Hinv.
  eexists. split; [exact Hp|]. cbn [pr_lines pr_jumps].
  split_and!.
  - apply (inv_len_lines _ _ _ Hinv).
  - apply (inv_len_jumps _ _ _ Hinv).
  - intros i Hi. unfold array_get. by rewrite (inv_lines _ _ _ Hinv i Hi).
Qed.

Lemma array_get_replicate_None n i : array_get (replicate n None) i = None.
Proof.
  unfold array_get. destruct (replicate n None !! i) as [o|] eqn:H; [|done].
  by apply lookup_replicate in H as [-> _].
Qed.

Lemma jumps_sound_step src p st c :
  src !! p = Some c → scan_inv src p st →
  jumps_sound src (p_jumps st) → jumps_sound src (p_jumps (prepare_byte c p st)).
Proof.
  intros Hc Hinv Hsound.
  destruct (decide (c = ch_open)) as [->|Hno];
    [|destruct (decide (c = ch_close)) as [->|Hnc]].
  - by rewrite prepare_byte_open.
  - rewrite prepare_byte_close.
    pose proof (inv_stack _ _ _ Hinv) as Hstk.
    destruct (p_stack st) as [|s stk] eqn:Hstack; [done|]. prep_simpl.
    pose proof (stack_ok_top_matched _ _ _ _ Hc Hstk) as Hm.
    intros i j Hij.
    destruct (decide (i = p)) as [->|Hip].
    + assert (p < length (<[s:=Some p]> (p_jumps st))) as Hlen.
      { rewrite length_insert, (inv_len_jumps _ _ _ Hinv).
        by eapply lookup_lt_Some. }
      rewrite (array_get_insert_eq _ p s Hlen) in Hij.
      injection Hij as <-. by right.
    + rewrite array_get_insert_ne in Hij by done.
      destruct (decide (i = s)) as [->|His].
      * assert (s < length (p_jumps st)) as Hlen.
        { rewrite (inv_len_jumps _ _ _ Hinv).
          apply lookup_lt_Some in Hc. destruct Hm. lia. }
        rewrite (array_get_insert_eq _ s p Hlen) in Hij.
        injection Hij as <-. by left.
      * rewrite array_get_insert_ne in Hij by done. by apply Hsound.
  - by rewrite prepare_byte_inert.
Qed.

Lemma jumps_sound_prefix src p :
  p ≤ length src → jumps_sound src (p_jumps (scan_at src p)).
Proof.
  unfold scan_at. induction p as [|p IH]; intros Hp.
  - simpl. intros i j Hij. by rewrite array_get_replicate_None in Hij.
  - destruct (lookup_lt_is_Some_2 src p) as [c Hc]; [lia|].
    rewrite (take_S_r _ _ _ Hc), prepare_scan_app. simpl.
    rewrite length_take_le by lia.
    apply jumps_sound_step; [done| |apply IH; lia].
    apply scan_inv_prefix. lia.
Qed.

(** X2.  The jump table, for every source buffer, balanced or not: the cell at
    offset [i] has been written, and holds [j], exactly when the brackets at
    [i] and [j] are structural partners.  Cells at other bytes and at
    unmatched brackets are never written. *)
Theorem prepare_jump_table (src : list Z) :
  ∃ p, prepare src = Some p ∧
       ∀ i j, array_get (pr_jumps p) i = Some j ↔
              matched src i j ∨ matched src j i.
Proof.
  pose proof (prepare_defined src) as Hp. cbv zeta in Hp.
  pose proof (scan_inv_final src) as Hinv.
  eexists. split; [exact Hp|]. cbn [pr_jumps]. intros i j. split.
  - pose proof (jumps_sound_prefix src (length src) (le_n _)) as Hs.
    unfold scan_at in Hs. rewrite firstn_all in Hs. apply Hs.
  - assert (∀ a b, matched src a b →
              array_get (p_jumps (prepare_scan src 0 (prepare_init (length src)))) a
              = Some b ∧
              array_get (p_jumps (prepare_scan src 0 (prepare_init (length src)))) b
              = Some a) as Hpair.
    { intros a b Hm. pose proof Hm as (Hab & Ha & Hb & _).
      assert (a < length src) as Hlt by (by eapply lookup_lt_Some).
      destruct (inv_opens _ _ _ Hinv a Hlt Ha) as (b' & _ & Hm' & H1 & H2).
      - intros Hin.
        apply (scan_stack_unmatched src (length src) _ a Hinv eq_refl) in Hin
          as [_ [_ Hall]].
        rewrite Forall_forall in Hall. apply (Hall b); [|done].
        apply elem_of_seq. apply lookup_lt_Some in Hb. lia.
      - by rewrite (matched_close_unique _ _ _ _ Hm Hm'). }
    intros [Hm|Hm]; by destruct (Hpair _ _ Hm).
Qed.

Lemma stack_ok_length src p stk : stack_ok src p stk → length stk ≤ p.
Proof.
  revert p. induction stk as [|s stk IH]; intros p; simpl; [lia|].
  intros (Hs & _ & _ & Hok). specialize (IH s Hok). lia.
Qed.

(** X3.  No write of the first loop of [prepare] leaves its array.  When the loop
    is at offset [i], the three arrays have [source_size] cells, the stack
    holds at most [i] offsets, all of them below [i]: so [lines[i]],
    [jumps[i]], [jumps[stack[stack_count]]] and a push to
    [stack[stack_count]] stay inside the [source_size] cells allocated. *)
Theorem prepare_writes_in_bounds (src : list Z) (i : nat)
  (Hi : i < length src) :
  length (p_lines (scan_at src i)) = length src ∧
  length (p_jumps (scan_at src i)) = length src ∧
  length (p_stack (scan_at src i)) ≤ i ∧
  length (p_stack (scan_at src i)) < length src ∧
  Forall (λ s, s < i) (p_stack (scan_at src i)).
Proof.
  pose proof (scan_inv_prefix src i (Nat.lt_le_incl _ _ Hi)) as Hinv.
  fold (scan_at src i) in Hinv.
  pose proof (stack_ok_length _ _ _ (inv_stack _ _ _ Hinv)) as Hlen.
  split_and!.
  - apply (inv_len_lines _ _ _ Hinv).
  - apply (inv_len_jumps _ _ _ Hinv).
  - done.
  - lia.
  - apply Forall_forall. intros s Hs.
    by destruct (stack_ok_elem _ _ _ _ (inv_stack _ _ _ Hinv) Hs).
Qed.

Lemma prepare_writes_in_bounds_witness :
  let src := bytes_of_string "[[+]" in
  length (p_lines (scan_at src 3)) = length src ∧
  length (p_jumps (scan_at src 3)) = length src ∧
  length (p_stack (scan_at src 3)) ≤ 3 ∧
  length (p_stack (scan_at src 3)) < length src ∧
  Forall (λ s, s < 3) (p_stack (scan_at src 3)).
Proof.
  intros src. apply (prepare_writes_in_bounds src 3). simpl. lia.
Defined.

(** * Further properties of [execute] *)

Lemma prepared_jumps_close src p j :
  prepare src = Some p → pr_success p = true → src !! j = Some ch_close →
  ∃ i, matched src i j ∧
       array_get (pr_jumps p) j = Some i ∧ array_get (pr_jumps p) i = Some j.
Proof.
  intros Hp Hs Hc.
  pose proof (proj1 (prepare_success_iff src p Hp) Hs) as Hb.
  rewrite prepare_defined in Hp. injection Hp as <-. simpl.
  pose proof (scan_inv_final src) as Hinv.
  destruct (scan_follows_nesting src 0 (prepare_init (length src)) 0 Hb)
    as (_ & Herrs & _).
  assert (j < length src) as Hj by (by eapply lookup_lt_Some).
  destruct (inv_closes _ _ _ Hinv j Hj Hc) as [Hun|(i & Hm & H1 & H2)].
  - exfalso. pose proof (inv_errs _ _ _ Hinv) as He. rewrite Herrs in He.
    symmetry in He. apply fmap_nil_inv in He.
    assert (j ∈ filter (unmatched_close src) (seq 0 (length src))) as Hin.
    { apply list_elem_of_filter. split; [done|]. apply elem_of_seq. lia. }
    rewrite He in Hin. by apply elem_of_nil in Hin.
  - by exists i.
Qed.

Lemma size_wrap_range z : (0 ≤ size_wrap z < SIZE_MODULUS)%Z.
Proof. unfold size_wrap. by apply Z.mod_pos_bound. Qed.

Lemma size_wrap_pred_succ z :
  (0 ≤ z < SIZE_MODULUS)%Z → size_wrap (size_wrap (z - 1) + 1) = z.
Proof.
  intros Hz. unfold size_wrap. rewrite Zplus_mod_idemp_l.
  replace (z - 1 + 1)%Z with z by lia. by apply Z.mod_small.
Qed.

Lemma open_step_zero m pc :
  prepared_for m → (0 ≤ pc)%Z → (source_size m < SIZE_MODULUS)%Z →
  source m !! Z.to_nat pc = Some ch_open →
  cells m !! Z.to_nat (cellptr m) = Some 0%Z →
  ∃ j, matched (source m) (Z.to_nat pc) j ∧
       loop_step m pc = Some (m, (Z.of_nat j + 1)%Z).
Proof.
  intros (p & Hp & Hsucc & Hl & Hj) Hpc Hsz Hs Hv.
  pose proof (source_lookup_lt _ _ _ Hpc Hs) as Hlt.
  destruct (prepared_jumps_open _ _ _ Hp Hsucc Hs) as (j & Hm & H1 & _).
  exists j. split; [done|].
  rewrite (loop_step_next m pc m (Z.of_nat j)); [|done|].
  - rewrite size_wrap_small; [done|].
    destruct Hm as (_ & _ & Hc & _). apply lookup_lt_Some in Hc.
    unfold source_size in Hsz. lia.
  - apply body_open_zero; [done..|]. by rewrite Hj.
Qed.

Lemma open_step_nonzero m pc v :
  (0 ≤ pc)%Z → (source_size m < SIZE_MODULUS)%Z →
  source m !! Z.to_nat pc = Some ch_open →
  cells m !! Z.to_nat (cellptr m) = Some v → v ≠ 0%Z →
  loop_step m pc = Some (m, (pc + 1)%Z).
Proof.
  intros Hpc Hsz Hs Hv Hne.
  pose proof (source_lookup_lt _ _ _ Hpc Hs) as Hlt.
  rewrite (loop_step_next m pc m pc); [|done|].
  - by rewrite size_wrap_small by lia.
  - body_at Hs. rewrite Hv. by destruct (Z.eqb_spec v 0).
Qed.

Lemma close_step_to m pc i :
  (0 ≤ pc)%Z → (source_size m < SIZE_MODULUS)%Z →
  source m !! Z.to_nat pc = Some ch_close →
  array_get (jumps m) (Z.to_nat pc) = Some i → i < length (source m) →
  loop_step m pc = Some (m, Z.of_nat i).
Proof.
  intros Hpc Hsz Hs Hj Hi.
  pose proof (source_lookup_lt _ _ _ Hpc Hs) as Hlt.
  rewrite (loop_step_next m pc m (size_wrap (Z.of_nat i - 1))); [|done|].
  - rewrite size_wrap_pred_succ; [done|]. unfold source_size in Hsz. lia.
  - body_at Hs. by rewrite Hj.
Qed.

Lemma close_step m pc :
  prepared_for m → (0 ≤ pc)%Z → (source_size m < SIZE_MODULUS)%Z →
  source m !! Z.to_nat pc = Some ch_close →
  ∃ i, matched (source m) i (Z.to_nat pc) ∧ loop_step m pc = Some (m, Z.of_nat i).
Proof.
  intros (p & Hp & Hsucc & Hl & Hj) Hpc Hsz Hs.
  destruct (prepared_jumps_close _ _ _ Hp Hsucc Hs) as (i & Hm & H1 & _).
  exists i. split; [done|].
  apply close_step_to; [done..|by rewrite Hj|].
  destruct Hm as (Hlt & _ & Hc & _). apply lookup_lt_Some in Hc. lia.
Qed.

(** X4.  At a [']'] of a prepared machine, whatever the current cell holds, the
    next byte processed is the matching ['['], and the machine is
    unchanged: the loop condition is tested by the ['['] only. *)
Theorem loop_close_step (m : machine) (pc : Z)
  (Hprep : prepared_for m) (Hpc : (0 ≤ pc)%Z)
  (Hsz : (source_size m < SIZE_MODULUS)%Z)
  (Hs : source m !! Z.to_nat pc = Some ch_close) :
  ∃ i, matched (source m) i (Z.to_nat pc) ∧
       loop_step m pc = Some (m, Z.of_nat i) ∧
       source m !! Z.to_nat (Z.of_nat i) = Some ch_open.
Proof.
  destruct (close_step m pc Hprep Hpc Hsz Hs) as (i & Hm & Hstep).
  exists i. split_and!; [done..|]. rewrite Nat2Z.id. by destruct Hm as (_ & ? & _).
Qed.

Lemma loop_close_step_witness :
  let m := boot false (bytes_of_string "+[-]")
             (MkPrepared (replicate 4 (Some 1)) [None; Some 3; None; Some 1] [] true)
             [] in
  ∃ i, matched (source m) i (Z.to_nat 3) ∧
       loop_step m 3 = Some (m, Z.of_nat i) ∧
       source m !! Z.to_nat (Z.of_nat i) = Some ch_open.
Proof.
  intros m. apply (loop_close_step m 3); [|lia|done|reflexivity].
  by exists (MkPrepared (replicate 4 (Some 1)) [None; Some 3; None; Some 1] [] true).
Defined.

Lemma loop_steps_add a b m pc :
  loop_steps (a + b) m pc =
  match loop_steps a m pc with
  | Some (m', pc') => loop_steps b m' pc'
  | None => None
  end.
Proof.
  revert m pc. induction a as [|a IH]; intros m pc; simpl; [done|].
  destruct (loop_step m pc) as [[m1 pc1]|]; [apply IH|done].
Qed.

(** X5.  The back edge of a loop.  From a [']'] of a prepared machine, two
    iterations later the loop is at the first byte of the loop body when the
    current cell is not zero, and at the byte after the [']'] when it is
    zero; the machine is unchanged. *)
Theorem loop_back_edge (m : machine) (pc : Z) (v : Z)
  (Hprep : prepared_for m) (Hpc : (0 ≤ pc)%Z)
  (Hsz : (source_size m < SIZE_MODULUS)%Z)
  (Hs : source m !! Z.to_nat pc = Some ch_close)
  (Hv : cells m !! Z.to_nat (cellptr m) = Some v) :
  ∃ i, matched (source m) i (Z.to_nat pc) ∧
       (v ≠ 0%Z → loop_steps 2 m pc = Some (m, (Z.of_nat i + 1)%Z)) ∧
       (v = 0%Z → loop_steps 2 m pc = Some (m, (pc + 1)%Z)).
Proof.
  destruct (close_step m pc Hprep Hpc Hsz Hs) as (i & Hm & Hstep).
  pose proof Hm as (_ & Ho & _).
  exists i. split; [done|]. simpl loop_steps. rewrite Hstep.
  assert (source m !! Z.to_nat (Z.of_nat i) = Some ch_open) as Ho'
    by (by rewrite Nat2Z.id).
  split.
  - intros Hne. by rewrite (open_step_nonzero m (Z.of_nat i) v) by (lia || done).
  - intros ->.
    destruct (open_step_zero m (Z.of_nat i) Hprep) as (j & Hm' & ->);
      [lia|done|done|done|].
    rewrite Nat2Z.id in Hm'.
    rewrite <- (matched_close_unique _ _ _ _ Hm Hm'). do 2 f_equal. lia.
Qed.

Lemma loop_back_edge_witness :
  let m := boot false (bytes_of_string "+[-]")
             (MkPrepared (replicate 4 (Some 1)) [None; Some 3; None; Some 1] [] true)
             [] in
  ∃ i, matched (source m) i (Z.to_nat 3) ∧
       (0%Z ≠ 0%Z → loop_steps 2 m 3 = Some (m, (Z.of_nat i + 1)%Z)) ∧
       (0%Z = 0%Z → loop_steps 2 m 3 = Some (m, (3 + 1)%Z)).
Proof.
  intros m. apply (loop_back_edge m 3 0); [|lia|done|reflexivity|apply boot_cell_zero].
  by exists (MkPrepared (replicate 4 (Some 1)) [None; Some 3; None; Some 1] [] true).
Defined.

(** ** The engine on prepared tables never leaves its arrays *)

Lemma body_tables m pc :
  source (machine_of (body m pc)) = source m ∧
  lines (machine_of (body m pc)) = lines m ∧
  jumps (machine_of (body m pc)) = jumps m ∧
  debug (machine_of (body m pc)) = debug m.
Proof.
  unfold body.
  destruct (source m !! Z.to_nat pc) as [c|]; [|done].
  destruct (decode c).
  - by destruct (cells m !! Z.to_nat (cellptr m)).
  - by destruct (cells m !! Z.to_nat (cellptr m)).
  - destruct (cellptr m =? CELL_COUNT - 1)%Z; [|done].
    by destruct (array_get (lines m) (Z.to_nat pc)).
  - destruct (cellptr m =? 0)%Z; [|done].
    by destruct (array_get (lines m) (Z.to_nat pc)).
  - destruct (cells m !! Z.to_nat (cellptr m)) as [v|]; [|done].
    destruct (v =? 0)%Z; [|done].
    by destruct (array_get (jumps m) (Z.to_nat pc)).
  - by destruct (array_get (jumps m) (Z.to_nat pc)).
  - by destruct (cells m !! Z.to_nat (cellptr m)).
  - destruct (stdin m) as [|b rest]; [done|].
    by destruct (cells m !! Z.to_nat (cellptr m)).
  - destruct (negb (debug m)); [done|].
    destruct (dump_frame m pc) as (_ & _ & Hs & Hl & Hj & Hd & _). done.
  - done.
Qed.

Lemma prepared_for_tables m m' :
  source m' = source m → lines m' = lines m → jumps m' = jumps m →
  prepared_for m → prepared_for m'.
Proof.
  intros Hs Hl Hj (p & Hp & Hsucc & Hl' & Hj'). exists p.
  by rewrite Hs, Hl, Hj.
Qed.

(** What one pass through the body can be, on prepared tables with the Tape
    Pointer inside the tape. *)
Lemma body_safe m pc :
  prepared_for m → tape_ok m →
  (0 ≤ pc < source_size m)%Z → (source_size m < SIZE_MODULUS)%Z →
  (∃ m' pc', body m pc = Next m' pc' ∧
             (0 ≤ size_wrap (pc' + 1) ≤ source_size m)%Z) ∨
  (∃ m', body m pc = Return m' false) ∨
  (debug m = true ∧ source m !! Z.to_nat pc = Some ch_hash ∧
   (CELL_COUNT - 7 ≤ cellptr m)%Z ∧
   ∃ m', body m pc = Undefined m' (CellOutOfRange CELL_COUNT)).
Proof.
  intros Hprep Hok Hpc Hsz.
  destruct (tape_ok_lookup m Hok) as [v Hv].
  destruct (lookup_lt_is_Some_2 (source m) (Z.to_nat pc)) as [c Hc].
  { unfold source_size in Hpc. lia. }
  assert (0 ≤ size_wrap (pc + 1) ≤ source_size m)%Z as Hnext.
  { rewrite size_wrap_small by lia. lia. }
  assert (∀ x : Z, decode x = DumpCells → x = ch_hash) as Hhash.
  { intros x. unfold decode.
    repeat match goal with
           | |- context [(x =? ?k)%Z] => destruct (Z.eqb_spec x k)
           end; done. }
  assert (∀ x : Z, decode x = LoopOpen → x = ch_open) as Hopen.
  { intros x. unfold decode.
    repeat match goal with
           | |- context [(x =? ?k)%Z] => destruct (Z.eqb_spec x k)
           end; done. }
  assert (∀ x : Z, decode x = LoopClose → x = ch_close) as Hclose.
  { intros x. unfold decode.
    repeat match goal with
           | |- context [(x =? ?k)%Z] => destruct (Z.eqb_spec x k)
           end; done. }
  unfold body. rewrite Hc. destruct (decode c) eqn:Hd.
  - rewrite Hv. left. by do 2 eexists.
  - rewrite Hv. left. by do 2 eexists.
  - destruct (cellptr m =? CELL_COUNT - 1)%Z; [|left; by do 2 eexists].
    destruct Hprep as (p & Hp & _ & Hl & _).
    rewrite Hl, (prepared_lines _ _ _ Hp) by (unfold source_size in Hpc; lia).
    right. left. by do 2 eexists.
  - destruct (cellptr m =? 0)%Z; [|left; by do 2 eexists].
    destruct Hprep as (p & Hp & _ & Hl & _).
    rewrite Hl, (prepared_lines _ _ _ Hp) by (unfold source_size in Hpc; lia).
    right. left. by do 2 eexists.
  - rewrite Hv. destruct (v =? 0)%Z; [|left; by do 2 eexists].
    apply Hopen in Hd. subst c.
    destruct Hprep as (p & Hp & Hsucc & _ & Hj).
    destruct (prepared_jumps_open _ _ _ Hp Hsucc Hc) as (j & Hm & H1 & _).
    rewrite Hj, H1. left. do 2 eexists. split; [done|].
    destruct Hm as (_ & _ & Hcl & _). apply lookup_lt_Some in Hcl.
    unfold source_size in *. rewrite size_wrap_small by lia. lia.
  - apply Hclose in Hd. subst c.
    destruct Hprep as (p & Hp & Hsucc & _ & Hj).
    destruct (prepared_jumps_close _ _ _ Hp Hsucc Hc) as (i & Hm & H1 & _).
    rewrite Hj, H1. left. do 2 eexists. split; [done|].
    destruct Hm as (Hlt & _ & Hcl & _). apply lookup_lt_Some in Hcl.
    unfold source_size in *. rewrite size_wrap_pred_succ by lia. lia.
  - rewrite Hv. left. by do 2 eexists.
  - destruct (stdin m) as [|b rest]; [left; by do 2 eexists|]. rewrite Hv. left. by do 2 eexists.
  - apply Hhash in Hd. subst c.
    destruct (debug m) eqn:Hdbg; simpl; [|left; by do 2 eexists].
    destruct (Z.lt_ge_cases (cellptr m) (CELL_COUNT - 7)) as [Hfar|Hnear].
    + destruct (dump_inside m pc Hok Hfar) as [m' ->]. left. by do 2 eexists.
    + destruct (dump_past_end m pc Hok Hnear) as [m' Hm'].
      right. right. split_and!; [done..|]. by exists m'.
  - left. by do 2 eexists.
Qed.

Lemma reachable_inv m0 m pc :
  prepared_for m0 → tape_ok m0 → (source_size m0 < SIZE_MODULUS)%Z →
  reachable m0 m pc →
  prepared_for m ∧ tape_ok m ∧ (0 ≤ pc ≤ source_size m)%Z ∧
  source m = source m0 ∧ debug m = debug m0.
Proof.
  intros Hprep Hok Hsz. induction 1 as [|m pc m' pc' _ IH Hlt Hb].
  - unfold source_size. split_and!; (done || lia).
  - destruct IH as (Hp & Ht & Hpc & Hs & Hd).
    pose proof (body_tables m pc) as (Hs' & Hl' & Hj' & Hd').
    rewrite Hb in Hs', Hl', Hj', Hd'. cbn [machine_of] in *.
    assert (source_size m' = source_size m) as Hsize
      by (unfold source_size; by rewrite Hs').
    assert (source_size m = source_size m0) as Hsize0
      by (unfold source_size; by rewrite Hs).
    refine (conj _ (conj _ (conj _ (conj _ _)))).
    + by apply (prepared_for_tables m m').
    + by destruct (body_next_pointer _ _ _ _ Ht Hb).
    + destruct (body_safe m pc Hp Ht) as [(m1 & pc1 & Hb1 & Hn)|[(m1 & Hb1)|(_ & _ & _ & m1 & Hb1)]];
        [lia|lia| | |]; rewrite Hb in Hb1; [|done..].
      injection Hb1 as <- <-. lia.
    + by rewrite Hs'.
    + by rewrite Hd'.
Qed.

(** X6.  Memory safety of [execute] behind a successful [prepare].  In every
    state the loop reaches from the initial one, [pc] is an offset into the
    source buffer (or its length), and the pass through the body either
    goes on to such an offset again, or returns [false]; the only undefined
    read is the one of the dump of ['#'] with the Tape Pointer among the
    last seven cells.  No cell of [jumps] or [lines] is read that [prepare]
    has not written, and no cell of the tape outside the tape. *)
Theorem execute_reads_are_defined (dbg : bool) (src : list Z) (p : prepared)
  (input : list Z) (m : machine) (pc : Z)
  (Hp : prepare src = Some p) (Hs : pr_success p = true)
  (Hsz : (Z.of_nat (length src) < SIZE_MODULUS)%Z)
  (Hr : reachable (boot dbg src p input) m pc) :
  (0 ≤ pc ≤ source_size m)%Z ∧
  ((pc < source_size m)%Z →
   (∃ m' pc', body m pc = Next m' pc' ∧
              (0 ≤ size_wrap (pc' + 1) ≤ source_size m')%Z) ∨
   (∃ m', body m pc = Return m' false) ∨
   (debug m = true ∧ source m !! Z.to_nat pc = Some ch_hash ∧
    (CELL_COUNT - 7 ≤ cellptr m)%Z ∧
    ∃ m', body m pc = Undefined m' (CellOutOfRange CELL_COUNT))).
Proof.
  assert (prepared_for (boot dbg src p input)) as Hprep by (by exists p).
  destruct (reachable_inv _ m pc Hprep (tape_ok_boot _ _ _ _) Hsz Hr)
    as (Hpm & Hok & Hpc & Hsrc & _).
  split; [done|]. intros Hlt.
  assert (source_size m = Z.of_nat (length src)) as Hsize
    by (unfold source_size; by rewrite Hsrc).
  destruct (body_safe m pc Hpm Hok) as [(m1 & pc1 & Hb1 & Hn)|[H|H]];
    [lia|lia| |by right; left|by right; right].
  left. exists m1, pc1. split; [done|].
  pose proof (body_tables m pc) as (Hs' & _). rewrite Hb1 in Hs'.
  cbn [machine_of] in Hs'. unfold source_size in *. by rewrite Hs'.
Qed.

Lemma execute_reads_are_defined_witness :
  let src := bytes_of_string "+[-]" in
  let p := MkPrepared (replicate 4 (Some 1)) [None; Some 3; None; Some 1] [] true in
  let m := boot false src p [] in
  (0 ≤ 0 ≤ source_size m)%Z ∧
  ((0 < source_size m)%Z →
   (∃ m' pc', body m 0 = Next m' pc' ∧
              (0 ≤ size_wrap (pc' + 1) ≤ source_size m')%Z) ∨
   (∃ m', body m 0 = Return m' false) ∨
   (debug m = true ∧ source m !! Z.to_nat 0 = Some ch_hash ∧
    (CELL_COUNT - 7 ≤ cellptr m)%Z ∧
    ∃ m', body m 0 = Undefined m' (CellOutOfRange CELL_COUNT))).
Proof.
  intros src p m.
  apply (execute_reads_are_defined false src p [] m 0);
    [reflexivity|reflexivity|done|apply reachable_start].
Defined.

Lemma execute_from_no_crash fuel m0 m pc :
  prepared_for m0 → tape_ok m0 → (source_size m0 < SIZE_MODULUS)%Z →
  debug m0 = false → reachable m0 m pc →
  ∀ m' f, execute_from fuel m pc ≠ Crashed m' f.
Proof.
  intros Hprep Hok Hsz Hdbg. revert m pc.
  induction fuel as [|fuel IH]; intros m pc Hr m' f; simpl.
  - by destruct (pc <? source_size m)%Z.
  - destruct (Z.ltb_spec pc (source_size m)) as [Hlt|]; [|done].
    destruct (reachable_inv _ _ _ Hprep Hok Hsz Hr) as (Hpm & Htm & Hpc & Hsrc & Hd).
    assert (source_size m = source_size m0) as Hsize
      by (unfold source_size; by rewrite Hsrc).
    destruct (body m pc) as [m1 pc1|m1 ok|m1 f1] eqn:Hb; [|done|].
    + apply IH. by apply (reachable_next m0 m pc).
    + destruct (body_safe m pc Hpm Htm) as [(?&?&?&_)|[(?&?)|(Hdm & _)]];
        [lia|lia|congruence|congruence|congruence].
Qed.

(** X7.  Without [--debug], [execute] behind a successful [prepare] performs no
    undefined read, however long it runs and whatever the input is: within
    any bound on the iterations it has returned or is still running. *)
Theorem execute_without_debug_never_crashes (src : list Z) (p : prepared)
  (input : list Z) (fuel : nat)
  (Hp : prepare src = Some p) (Hs : pr_success p = true)
  (Hsz : (Z.of_nat (length src) < SIZE_MODULUS)%Z) :
  (∃ m ok, execute fuel (boot false src p input) = Finished m ok) ∨
  (∃ m pc, execute fuel (boot false src p input) = OutOfFuel m pc).
Proof.
  assert (prepared_for (boot false src p input)) as Hprep by (by exists p).
  pose proof (execute_from_no_crash fuel _ _ 0 Hprep (tape_ok_boot _ _ _ _) Hsz
                eq_refl (reachable_start _)) as Hno.
  unfold execute. destruct (execute_from _ _ _) as [m ok|m f|m pc]; [left|..|right].
  - by exists m, ok.
  - by destruct (Hno m f).
  - by exists m, pc.
Qed.

Lemma execute_without_debug_never_crashes_witness :
  let src := bytes_of_string "+[-]" in
  let p := MkPrepared (replicate 4 (Some 1)) [None; Some 3; None; Some 1] [] true in
  (∃ m ok, execute 3 (boot false src p []) = Finished m ok) ∨
  (∃ m pc, execute 3 (boot false src p []) = OutOfFuel m pc).
Proof.
  intros src p.
  apply (execute_without_debug_never_crashes src p [] 3); [reflexivity|reflexivity|done].
Defined.

(** ** What [execute] writes to [stderr] *)

Lemma dump_loop_stderr n i m :
  stderr (machine_of (dump_loop n i m)) = stderr m.
Proof. by destruct (dump_loop_frame n i m) as (_ & _ & _ & _ & _ & _ & _ & ?). Qed.

Lemma body_stderr m pc :
  match body m pc with
  | Next m' _ => stderr m' = stderr m
  | Return m' ok =>
      ok = false ∧ cells m' = cells m ∧ cellptr m' = cellptr m ∧
      stdout m' = stdout m ∧ stdin m' = stdin m ∧
      ∃ e, bounds_message e ∧ stderr m' = stderr m ++ [e]
  | Undefined m' _ => stderr m' = stderr m
  end.
Proof.
  unfold body.
  destruct (source m !! Z.to_nat pc) as [c|]; [|done].
  destruct (decode c).
  - by destruct (cells m !! Z.to_nat (cellptr m)).
  - by destruct (cells m !! Z.to_nat (cellptr m)).
  - destruct (cellptr m =? CELL_COUNT - 1)%Z; [|done].
    destruct (array_get (lines m) (Z.to_nat pc)) as [ln|]; [|done].
    split_and!; [done..|]. eexists. split; [|done]. exists ln. by left.
  - destruct (cellptr m =? 0)%Z; [|done].
    destruct (array_get (lines m) (Z.to_nat pc)) as [ln|]; [|done].
    split_and!; [done..|]. eexists. split; [|done]. exists ln. by right.
  - destruct (cells m !! Z.to_nat (cellptr m)) as [v|]; [|done].
    destruct (v =? 0)%Z; [|done].
    by destruct (array_get (jumps m) (Z.to_nat pc)).
  - by destruct (array_get (jumps m) (Z.to_nat pc)).
  - by destruct (cells m !! Z.to_nat (cellptr m)).
  - destruct (stdin m) as [|b rest]; [done|].
    by destruct (cells m !! Z.to_nat (cellptr m)).
  - destruct (negb (debug m)); [done|].
    destruct (dump_frame m pc) as (_ & _ & _ & _ & _ & _ & _ & He).
    destruct (dump m pc) as [m' pc'|m' ok|m' f] eqn:Hd; try done.
    exfalso. unfold dump in Hd.
    assert (∀ n i m0 m1 ok1, dump_loop n i m0 ≠ Return m1 ok1) as Hnever.
    { clear. induction n as [|n IH]; intros i m0 m1 ok1; simpl; [done|].
      destruct (cells m0 !! Z.to_nat i); [apply IH|done]. }
    destruct (dump_loop _ _ _) eqn:Hl; try done. by apply Hnever in Hl.
  - done.
Qed.

(** X8.  [execute] writes to [stderr] only when it returns [false], and then
    exactly one message, a bounds error; a run that returns [true], and a
    run that is still going on, have written nothing there. *)
Theorem execute_stderr (fuel : nat) (m : machine) (pc : Z) :
  match execute_from fuel m pc with
  | Finished m' true => stderr m' = stderr m
  | Finished m' false => ∃ e, bounds_message e ∧ stderr m' = stderr m ++ [e]
  | Crashed m' _ => stderr m' = stderr m
  | OutOfFuel m' _ => stderr m' = stderr m
  end.
Proof.
  revert m pc. induction fuel as [|fuel IH]; intros m pc; simpl.
  - by destruct (pc <? source_size m)%Z.
  - destruct (pc <? source_size m)%Z; [|done].
    pose proof (body_stderr m pc) as Hb.
    destruct (body m pc) as [m1 pc1|m1 ok|m1 f].
    + specialize (IH m1 (size_wrap (pc1 + 1))). rewrite Hb in IH. exact IH.
    + destruct Hb as (-> & _ & _ & _ & _ & He). exact He.
    + exact Hb.
Qed.

(** ** The dump of ['#'] inside the tape *)

Lemma prints_cons m o os : prints m (o :: os) = prints (print m o) os.
Proof. done. Qed.

Lemma prints_fields m os :
  cells (prints m os) = cells m ∧ cellptr (prints m os) = cellptr m ∧
  stdin (prints m os) = stdin m ∧ stderr (prints m os) = stderr m ∧
  stdout (prints m os) = stdout m ++ os.
Proof.
  revert m. induction os as [|o os IH]; intros m.
  - unfold prints. simpl. by rewrite app_nil_r.
  - rewrite prints_cons. destruct (IH (print m o)) as (H1 & H2 & H3 & H4 & H5).
    rewrite H1, H2, H3, H4, H5. simpl. by rewrite <- app_assoc.
Qed.

Lemma dump_rows_S m b n v :
  cells m !! Z.to_nat b = Some v →
  dump_rows m b (S n) =
  DumpRow b v (b =? cellptr m)%Z :: dump_rows m (b + 1) n.
Proof.
  intros Hv. unfold dump_rows. simpl. rewrite Z.add_0_r, Hv. simpl. f_equal.
  rewrite <- seq_shift, <- list_fmap_compose. apply list_fmap_ext.
  intros _ k _. simpl.
  by replace (b + Z.of_nat (S k))%Z with (b + 1 + Z.of_nat k)%Z by lia.
Qed.

Lemma dump_rows_print m o b n : dump_rows (print m o) b n = dump_rows m b n.
Proof. done. Qed.

Lemma dump_loop_rows n i m :
  (0 ≤ i)%Z → (i + Z.of_nat n ≤ Z.of_nat (length (cells m)))%Z →
  (Z.of_nat (length (cells m)) < SIZE_MODULUS - 1)%Z →
  dump_loop n i m = Next (prints m (dump_rows m i n)) 0%Z.
Proof.
  revert i m. induction n as [|n IH]; intros i m Hi Hn Hsz; [done|].
  destruct (lookup_lt_is_Some_2 (cells m) (Z.to_nat i)) as [v Hv]; [lia|].
  simpl dump_loop. rewrite Hv, size_wrap_small by lia.
  rewrite IH by (simpl; lia).
  by rewrite (dump_rows_S m i n v Hv), prints_cons, dump_rows_print.
Qed.

(** X9.  With [--debug] and the Tape Pointer before the last seven cells, ['#']
    prints the header line and then exactly ten rows, for the ten cells from
    two before the Tape Pointer (from cell 0 when the pointer is below 2);
    all ten are cells of the tape, the row of the current cell is among them
    and is the one marked; nothing else changes. *)
Theorem dump_prints_ten_rows (m : machine) (pc : Z)
  (Hok : tape_ok m) (Hfar : (cellptr m < CELL_COUNT - 7)%Z)
  (Hdbg : debug m = true)
  (Hs : source m !! Z.to_nat pc = Some ch_hash) :
  let b := dump_begin (cellptr m) in
  body m pc = Next (prints m (DumpHeader :: dump_rows m b 10)) pc ∧
  stdout (prints m (DumpHeader :: dump_rows m b 10))
  = stdout m ++ DumpHeader :: dump_rows m b 10 ∧
  cells (prints m (DumpHeader :: dump_rows m b 10)) = cells m ∧
  b = Z.max 0 (cellptr m - 2) ∧ (b + 10 ≤ CELL_COUNT)%Z ∧
  ∃ v, cells m !! Z.to_nat (cellptr m) = Some v ∧
       dump_rows m b 10 !! Z.to_nat (cellptr m - b) = Some (DumpRow (cellptr m) v true).
Proof.
  intros b. pose proof Hok as [Hlen Hptr]. pose proof CELL_COUNT_small as Hcc.
  destruct (dump_window (cellptr m)) as (Hten & Hb & Hb2); [lia|]. fold b in Hten, Hb, Hb2.
  assert (b = Z.max 0 (cellptr m - 2)) as Hmax.
  { unfold b, dump_begin. destruct (Z.ltb_spec (cellptr m) 2); lia. }
  destruct (prints_fields m (DumpHeader :: dump_rows m b 10)) as (Hc & _ & _ & _ & Ho).
  split_and!; [|done|done|done|lia|].
  - body_at Hs. rewrite Hdbg. cbn [negb]. unfold dump. fold b. rewrite Hten.
    rewrite dump_loop_rows; [done|lia| |]; cbn [cells print]; lia.
  - destruct (tape_ok_lookup m Hok) as [v Hv]. exists v. split; [done|].
    unfold dump_rows. rewrite list_lookup_fmap.
    rewrite lookup_seq_lt by lia. simpl.
    replace (b + Z.of_nat (Z.to_nat (cellptr m - b)))%Z with (cellptr m) by lia.
    by rewrite Hv, Z.eqb_refl.
Qed.

Lemma dump_prints_ten_rows_witness :
  let m := boot true (bytes_of_string "#")
             (MkPrepared [Some 1] [None] [] true) [] in
  let b := dump_begin (cellptr m) in
  body m 0 = Next (prints m (DumpHeader :: dump_rows m b 10)) 0 ∧
  stdout (prints m (DumpHeader :: dump_rows m b 10))
  = stdout m ++ DumpHeader :: dump_rows m b 10 ∧
  cells (prints m (DumpHeader :: dump_rows m b 10)) = cells m ∧
  b = Z.max 0 (cellptr m - 2) ∧ (b + 10 ≤ CELL_COUNT)%Z ∧
  ∃ v, cells m !! Z.to_nat (cellptr m) = Some v ∧
       dump_rows m b 10 !! Z.to_nat (cellptr m - b) = Some (DumpRow (cellptr m) v true).
Proof.
  intros m.
  apply (dump_prints_ten_rows m 0); [apply tape_ok_boot|done|reflexivity|reflexivity].
Defined.

(** ** Bytes without effect *)

Lemma inert_byte_body dbg m pc c :
  source m !! Z.to_nat pc = Some c → debug m = dbg → inert_byte dbg c →
  body m pc = Next m pc.
Proof.
  intros Hs Hd [Hi|[Hi ->]]; unfold body; rewrite Hs, Hi; [done|].
  by rewrite Hd.
Qed.

Lemma inert_byte_not_bracket dbg c :
  inert_byte dbg c → c ≠ ch_open ∧ c ≠ ch_close.
Proof. intros [H|[H _]]; split; intros ->; done. Qed.

Lemma inert_steps dbg k m pc :
  (0 ≤ pc)%Z → (source_size m < SIZE_MODULUS)%Z → debug m = dbg →
  (∀ i c, i < k → source m !! (Z.to_nat pc + i) = Some c → inert_byte dbg c) →
  (Z.to_nat pc + k ≤ length (source m)) →
  loop_steps k m pc = Some (m, (pc + Z.of_nat k)%Z).
Proof.
  revert pc. induction k as [|k IH]; intros pc Hpc Hsz Hd Hall Hlen.
  - simpl. do 2 f_equal. lia.
  - destruct (lookup_lt_is_Some_2 (source m) (Z.to_nat pc)) as [c Hc]; [lia|].
    pose proof (source_lookup_lt _ _ _ Hpc Hc) as Hlt.
    assert (inert_byte dbg c) as Hi.
    { apply (Hall 0 c); [lia|]. by rewrite Nat.add_0_r. }
    simpl loop_steps.
    rewrite (loop_step_next _ _ _ _ Hlt (inert_byte_body dbg m pc c Hc Hd Hi)).
    rewrite size_wrap_small by lia.
    rewrite IH; [do 2 f_equal; lia|lia|done|done| |lia].
    intros i c' Hi' Hc'. apply (Hall (S i) c'); [lia|].
    by replace (Z.to_nat pc + S i) with (Z.to_nat (pc + 1) + i) by lia.
Qed.

(** X10.  A source buffer without instruction bytes (['#'] counts as one only with
    [--debug]) is a valid program that does nothing: [prepare] succeeds, and
    [execute] returns [true] after one iteration per byte with the machine
    as it was entered, so nothing is written to [stdout] or [stderr], no
    input is consumed and the tape is all zero. *)
Theorem comment_only_program (dbg : bool) (src : list Z) (input : list Z)
  (Hall : Forall (inert_byte dbg) src)
  (Hsz : (Z.of_nat (length src) < SIZE_MODULUS)%Z) :
  ∃ p, prepare src = Some p ∧ pr_success p = true ∧ pr_errors p = [] ∧
       main (length src) dbg src input
       = Some (Finished (boot dbg src p input) true) ∧
       executed (length src) (boot dbg src p input) 0
       = (Z.of_nat <$> seq 0 (length src)).
Proof.
  assert (balanced src) as Hb.
  { apply nesting_inert_bytes. eapply Forall_impl; [exact Hall|].
    intros c. apply inert_byte_not_bracket. }
  destruct (prepare src) as [p|] eqn:Hp; [|by rewrite prepare_defined in Hp].
  destruct (prepare_balanced_quiet src p Hb Hp) as [Hs He].
  exists p. split_and!; [done..| |].
  - unfold main. rewrite Hp, Hs. f_equal. unfold execute.
    set (m := boot dbg src p input).
    assert (loop_steps (length src) m 0 = Some (m, (0 + Z.of_nat (length src))%Z))
      as Hsteps.
    { apply (inert_steps dbg); [lia|done|done| |simpl; lia].
      intros i c _ Hc. rewrite Forall_forall in Hall. apply Hall.
      by eapply list_elem_of_lookup_2. }
    pose proof (execute_from_steps (length src) 0 _ _ _ _ Hsteps) as Hrun.
    rewrite Nat.add_0_r in Hrun. rewrite Hrun. simpl.
    replace (0 + Z.of_nat (length src) <? source_size m)%Z with false; [done|].
    symmetry. apply Z.ltb_ge. unfold source_size, m. simpl. lia.
  - set (m := boot dbg src p input).
    assert (∀ k pc, (0 ≤ pc)%Z → Z.to_nat pc + k = length src →
              executed k m pc = (λ i, (pc + Z.of_nat i)%Z) <$> seq 0 k) as Hex.
    { induction k as [|k IH]; intros pc Hpc Hk.
      - simpl. by destruct (pc <? source_size m)%Z.
      - destruct (lookup_lt_is_Some_2 src (Z.to_nat pc)) as [c Hc]; [lia|].
        assert (inert_byte dbg c) as Hi.
        { rewrite Forall_forall in Hall. apply Hall.
          by eapply list_elem_of_lookup_2. }
        assert (loop_step m pc = Some (m, (pc + 1)%Z)) as Hstep.
        { rewrite (loop_step_next m pc m pc).
          - by rewrite size_wrap_small by lia.
          - unfold source_size, m. simpl. lia.
          - by apply (inert_byte_body dbg m pc c). }
        destruct (execute_from_step k _ _ _ _ Hstep) as [_ ->].
        rewrite IH by lia. simpl. rewrite Z.add_0_r. f_equal.
        rewrite <- seq_shift, <- list_fmap_compose. apply list_fmap_ext.
        intros _ i _. simpl. lia. }
    rewrite Hex by (simpl; lia). apply list_fmap_ext. intros _ i _. simpl. lia.
Qed.

Lemma comment_only_program_witness :
  ∃ p, prepare (bytes_of_string "hi #") = Some p ∧
       pr_success p = true ∧ pr_errors p = [] ∧
       main (length (bytes_of_string "hi #")) false (bytes_of_string "hi #") [7%Z]
       = Some (Finished (boot false (bytes_of_string "hi #") p [7%Z]) true) ∧
       executed (length (bytes_of_string "hi #"))
                (boot false (bytes_of_string "hi #") p [7%Z]) 0
       = (Z.of_nat <$> seq 0 (length (bytes_of_string "hi #"))).
Proof.
  apply (comment_only_program false (bytes_of_string "hi #") [7%Z]); [|done].
  repeat constructor; by vm_compute; auto.
Defined.

(** ** Runs of one instruction, and instructions that undo each other *)

Lemma loop_steps_chain k (F : nat → machine) pc n :
  (0 ≤ pc)%Z → (n < SIZE_MODULUS)%Z → (pc + Z.of_nat k ≤ n)%Z →
  (∀ i, i ≤ k → source_size (F i) = n) →
  (∀ i, i < k →
        body (F i) (pc + Z.of_nat i) = Next (F (S i)) (pc + Z.of_nat i)) →
  loop_steps k (F 0) pc = Some (F k, (pc + Z.of_nat k)%Z).
Proof.
  revert F pc. induction k as [|k IH]; intros F pc Hpc Hn Hk Hsize Hbody.
  - simpl. do 2 f_equal. lia.
  - simpl loop_steps.
    pose proof (Hbody 0 (Nat.lt_0_succ _)) as H0. rewrite Z.add_0_r in H0.
    assert (pc < source_size (F 0%nat))%Z as Hlt by (rewrite Hsize by lia; lia).
    rewrite (loop_step_next _ _ _ _ Hlt H0).
    rewrite size_wrap_small by lia.
    rewrite (IH (λ i, F (S i)) (pc + 1)%Z); [do 2 f_equal; lia|lia|done|lia| |].
    + intros i Hi. apply Hsize. lia.
    + intros i Hi.
      replace (pc + 1 + Z.of_nat i)%Z with (pc + Z.of_nat (S i))%Z by lia.
      apply Hbody. lia.
Qed.

Lemma with_cellptr_same m : with_cellptr m (cellptr m) = m.
Proof. by destruct m. Qed.

Lemma body_right m pc :
  source m !! Z.to_nat pc = Some ch_gt →
  (0 ≤ cellptr m < CELL_COUNT - 1)%Z →
  body m pc = Next (with_cellptr m (cellptr m + 1)) pc.
Proof.
  intros Hs Hp. pose proof CELL_COUNT_small. body_at Hs.
  destruct (Z.eqb_spec (cellptr m) (CELL_COUNT - 1)); [lia|].
  by rewrite size_wrap_small by lia.
Qed.

Lemma body_left m pc :
  source m !! Z.to_nat pc = Some ch_lt →
  (0 < cellptr m < CELL_COUNT)%Z →
  body m pc = Next (with_cellptr m (cellptr m - 1)) pc.
Proof.
  intros Hs Hp. pose proof CELL_COUNT_small. body_at Hs.
  destruct (Z.eqb_spec (cellptr m) 0); [lia|].
  by rewrite size_wrap_small by lia.
Qed.

Lemma source_run_lookup m pc k c i :
  (0 ≤ pc)%Z →
  (∀ i, i < k → source m !! (Z.to_nat pc + i) = Some c) → i < k →
  source m !! Z.to_nat (pc + Z.of_nat i) = Some c.
Proof.
  intros Hpc Hsrc Hi.
  replace (Z.to_nat (pc + Z.of_nat i)) with (Z.to_nat pc + i) by lia.
  by apply Hsrc.
Qed.

Lemma source_run_size m pc k c :
  (0 ≤ pc)%Z →
  (∀ i, i < k → source m !! (Z.to_nat pc + i) = Some c) →
  (pc + Z.of_nat k ≤ source_size m)%Z ∨ k = 0.
Proof.
  intros Hpc Hsrc. destruct k as [|k]; [by right|left].
  pose proof (Hsrc k (Nat.lt_succ_diag_r _)) as H.
  apply lookup_lt_Some in H. unfold source_size. lia.
Qed.

(** The machine after a run of [k] equal instructions, in closed form. *)
Lemma equal_run_steps (m : machine) (pc : Z) (k : nat) (c : Z) (v : Z)
  (Hpc : (0 ≤ pc)%Z) (Hsz : (source_size m < SIZE_MODULUS)%Z)
  (Hok : tape_ok m)
  (Hv : cells m !! Z.to_nat (cellptr m) = Some v) (Hu8 : (0 ≤ v < 256)%Z)
  (Hsrc : ∀ i, i < k → source m !! (Z.to_nat pc + i) = Some c) :
  (c = ch_plus →
   loop_steps k m pc
   = Some (set_cell m ((v + Z.of_nat k) mod 256), (pc + Z.of_nat k)%Z)) ∧
  (c = ch_minus →
   loop_steps k m pc
   = Some (set_cell m ((v - Z.of_nat k) mod 256), (pc + Z.of_nat k)%Z)) ∧
  (c = ch_gt → (cellptr m + Z.of_nat k < CELL_COUNT)%Z →
   loop_steps k m pc
   = Some (with_cellptr m (cellptr m + Z.of_nat k), (pc + Z.of_nat k)%Z)) ∧
  (c = ch_lt → (0 ≤ cellptr m - Z.of_nat k)%Z →
   loop_steps k m pc
   = Some (with_cellptr m (cellptr m - Z.of_nat k), (pc + Z.of_nat k)%Z)).
Proof.
  pose proof Hok as [Hlen Hptr].
  assert (k = 0 → ∀ m', m' = m → loop_steps k m pc = Some (m', (pc + Z.of_nat k)%Z))
    as Hzero.
  { intros -> m' ->. simpl. do 2 f_equal. lia. }
  assert (Z.to_nat (cellptr m) < length (cells m)) as Hin by lia.
  split_and!.
  - intros ->. destruct (source_run_size m pc k _ Hpc Hsrc) as [Hk| ->].
    2:{ apply Hzero; [done|]. simpl. rewrite Z.add_0_r, Z.mod_small by done.
        by apply set_cell_same. }
    rewrite <- (set_cell_same m v Hv) at 1.
    replace v with ((v + Z.of_nat 0) mod 256)%Z at 1
      by (rewrite Z.add_0_r; by apply Z.mod_small).
    apply (loop_steps_chain k (λ i, set_cell m ((v + Z.of_nat i) mod 256))
             pc (source_size m)); [done..| |].
    + done.
    + intros i Hi.
      rewrite (body_inc _ _ ((v + Z.of_nat i) mod 256)).
      * rewrite set_cell_twice. do 2 f_equal. unfold u8_wrap.
        rewrite Zplus_mod_idemp_l. f_equal. lia.
      * by apply (source_run_lookup m pc k).
      * simpl. by apply list_lookup_insert_eq.
  - intros ->. destruct (source_run_size m pc k _ Hpc Hsrc) as [Hk| ->].
    2:{ apply Hzero; [done|]. simpl. rewrite Z.sub_0_r, Z.mod_small by done.
        by apply set_cell_same. }
    rewrite <- (set_cell_same m v Hv) at 1.
    replace v with ((v - Z.of_nat 0) mod 256)%Z at 1
      by (rewrite Z.sub_0_r; by apply Z.mod_small).
    apply (loop_steps_chain k (λ i, set_cell m ((v - Z.of_nat i) mod 256))
             pc (source_size m)); [done..| |].
    + done.
    + intros i Hi.
      rewrite (body_dec _ _ ((v - Z.of_nat i) mod 256)).
      * rewrite set_cell_twice. do 2 f_equal. unfold u8_wrap.
        rewrite Zminus_mod_idemp_l. f_equal. lia.
      * by apply (source_run_lookup m pc k).
      * simpl. by apply list_lookup_insert_eq.
  - intros -> Hroom. destruct (source_run_size m pc k _ Hpc Hsrc) as [Hk| ->].
    2:{ apply Hzero; [done|]. simpl. rewrite Z.add_0_r. apply with_cellptr_same. }
    rewrite <- (with_cellptr_same m) at 1.
    replace (cellptr m) with (cellptr m + Z.of_nat 0)%Z at 1 by lia.
    apply (loop_steps_chain k (λ i, with_cellptr m (cellptr m + Z.of_nat i))
             pc (source_size m)); [done..| |].
    + done.
    + intros i Hi. rewrite body_right.
      * unfold with_cellptr. simpl. do 2 f_equal. lia.
      * by apply (source_run_lookup m pc k).
      * simpl. lia.
  - intros -> Hroom. destruct (source_run_size m pc k _ Hpc Hsrc) as [Hk| ->].
    2:{ apply Hzero; [done|]. simpl. rewrite Z.sub_0_r. apply with_cellptr_same. }
    rewrite <- (with_cellptr_same m) at 1.
    replace (cellptr m) with (cellptr m - Z.of_nat 0)%Z at 1 by lia.
    apply (loop_steps_chain k (λ i, with_cellptr m (cellptr m - Z.of_nat i))
             pc (source_size m)); [done..| |].
    + done.
    + intros i Hi. rewrite body_left.
      * unfold with_cellptr. simpl. do 2 f_equal. lia.
      * by apply (source_run_lookup m pc k).
      * simpl. lia.
Qed.

(** X11.  A run of [k] equal instructions.  After [k] bytes ['+'] the current
    cell holds [(v + k) mod 256] and after [k] bytes ['-'] it holds
    [(v - k) mod 256], where [v] is what it held before; the other cells and
    the Tape Pointer are as before.  After [k] bytes ['>'] the Tape Pointer
    is [k] cells further right and after [k] bytes ['<'] it is [k] cells
    further left, provided the target cell is on the tape; the tape is as
    before.  In all four cases nothing is written to [stdout] or [stderr],
    and the loop is then at the byte after the run. *)
Theorem run_of_equal_instructions (m : machine) (pc : Z) (k : nat) (c : Z) (v : Z)
  (Hpc : (0 ≤ pc)%Z) (Hsz : (source_size m < SIZE_MODULUS)%Z)
  (Hok : tape_ok m)
  (Hv : cells m !! Z.to_nat (cellptr m) = Some v) (Hu8 : (0 ≤ v < 256)%Z)
  (Hsrc : ∀ i, i < k → source m !! (Z.to_nat pc + i) = Some c) :
  (c = ch_plus →
   ∃ m', loop_steps k m pc = Some (m', (pc + Z.of_nat k)%Z) ∧
         m' = set_cell m ((v + Z.of_nat k) mod 256) ∧
         cells m' !! Z.to_nat (cellptr m) = Some ((v + Z.of_nat k) mod 256)%Z ∧
         (∀ i, i ≠ Z.to_nat (cellptr m) → cells m' !! i = cells m !! i) ∧
         cellptr m' = cellptr m ∧
         stdout m' = stdout m ∧ stderr m' = stderr m) ∧
  (c = ch_minus →
   ∃ m', loop_steps k m pc = Some (m', (pc + Z.of_nat k)%Z) ∧
         m' = set_cell m ((v - Z.of_nat k) mod 256) ∧
         cells m' !! Z.to_nat (cellptr m) = Some ((v - Z.of_nat k) mod 256)%Z ∧
         (∀ i, i ≠ Z.to_nat (cellptr m) → cells m' !! i = cells m !! i) ∧
         cellptr m' = cellptr m ∧
         stdout m' = stdout m ∧ stderr m' = stderr m) ∧
  (c = ch_gt → (cellptr m + Z.of_nat k < CELL_COUNT)%Z →
   ∃ m', loop_steps k m pc = Some (m', (pc + Z.of_nat k)%Z) ∧
         m' = with_cellptr m (cellptr m + Z.of_nat k) ∧
         cellptr m' = (cellptr m + Z.of_nat k)%Z ∧ cells m' = cells m ∧
         stdout m' = stdout m ∧ stderr m' = stderr m) ∧
  (c = ch_lt → (0 ≤ cellptr m - Z.of_nat k)%Z →
   ∃ m', loop_steps k m pc = Some (m', (pc + Z.of_nat k)%Z) ∧
         m' = with_cellptr m (cellptr m - Z.of_nat k) ∧
         cellptr m' = (cellptr m - Z.of_nat k)%Z ∧ cells m' = cells m ∧
         stdout m' = stdout m ∧ stderr m' = stderr m).
Proof.
  destruct (equal_run_steps m pc k c v Hpc Hsz Hok Hv Hu8 Hsrc)
    as (Hplus & Hminus & Hright & Hleft).
  refine (conj _ (conj _ (conj _ _))).
  - intros Hc.
    refine (ex_intro _ _ (conj (Hplus Hc) (conj eq_refl (conj _ (conj _
              (conj eq_refl (conj eq_refl eq_refl))))))).
    + by apply (set_cell_lookup m _ v).
    + intros i Hi. by apply set_cell_lookup_ne.
  - intros Hc.
    refine (ex_intro _ _ (conj (Hminus Hc) (conj eq_refl (conj _ (conj _
              (conj eq_refl (conj eq_refl eq_refl))))))).
    + by apply (set_cell_lookup m _ v).
    + intros i Hi. by apply set_cell_lookup_ne.
  - intros Hc Hroom.
    exact (ex_intro _ _ (conj (Hright Hc Hroom) (conj eq_refl (conj eq_refl
             (conj eq_refl (conj eq_refl eq_refl)))))).
  - intros Hc Hroom.
    exact (ex_intro _ _ (conj (Hleft Hc Hroom) (conj eq_refl (conj eq_refl
             (conj eq_refl (conj eq_refl eq_refl)))))).
Qed.

Lemma run_of_equal_instructions_witness :
  let mr := boot false (replicate 5 ch_gt)
              (MkPrepared (replicate 5 (Some 1)) (replicate 5 None) [] true) [] in
  let md := boot false (replicate 3 ch_minus)
              (MkPrepared (replicate 3 (Some 1)) (replicate 3 None) [] true) [] in
  (∃ m', loop_steps 5 mr 0 = Some (m', (0 + Z.of_nat 5)%Z) ∧
         m' = with_cellptr mr (cellptr mr + Z.of_nat 5) ∧
         cellptr m' = (cellptr mr + Z.of_nat 5)%Z ∧ cells m' = cells mr ∧
         stdout m' = stdout mr ∧ stderr m' = stderr mr) ∧
  (∃ m', loop_steps 3 md 0 = Some (m', (0 + Z.of_nat 3)%Z) ∧
         m' = set_cell md ((0 - Z.of_nat 3) mod 256) ∧
         cells m' !! Z.to_nat (cellptr md) = Some ((0 - Z.of_nat 3) mod 256)%Z ∧
         (∀ i, i ≠ Z.to_nat (cellptr md) → cells m' !! i = cells md !! i) ∧
         cellptr m' = cellptr md ∧
         stdout m' = stdout md ∧ stderr m' = stderr md) ∧
  ((0 - Z.of_nat 3) mod 256 = 253)%Z.
Proof.
  intros mr md. split; [|split; [|reflexivity]].
  - refine (proj1 (proj2 (proj2
              (run_of_equal_instructions mr 0 5 ch_gt 0 _ _ _ _ _ _))) _ _);
      [lia|done|apply tape_ok_boot|apply boot_cell_zero|lia| |reflexivity|].
    + intros i Hi. apply lookup_replicate_2. lia.
    + change (cellptr mr) with 0%Z. unfold CELL_COUNT. lia.
  - refine (proj1 (proj2
              (run_of_equal_instructions md 0 3 ch_minus 0 _ _ _ _ _ _)) _);
      [lia|done|apply tape_ok_boot|apply boot_cell_zero|lia| |reflexivity].
    intros i Hi. apply lookup_replicate_2. lia.
Defined.

(** X12.  Two instructions that undo each other.  ['+'] then ['-'], and ['-'] then
    ['+'], leave the machine as it was; so do ['>'] then ['<'] unless the
    Tape Pointer is at the last cell, and ['<'] then ['>'] unless it is at
    cell 0. *)
Theorem inverse_instruction_pairs (m : machine) (pc : Z) (a b : Z) (v : Z)
  (Hpc : (0 ≤ pc)%Z) (Hsz : (source_size m < SIZE_MODULUS)%Z)
  (Hok : tape_ok m)
  (Hv : cells m !! Z.to_nat (cellptr m) = Some v) (Hu8 : (0 ≤ v < 256)%Z)
  (Ha : source m !! Z.to_nat pc = Some a)
  (Hb : source m !! Z.to_nat (pc + 1) = Some b) :
  (a = ch_plus → b = ch_minus → loop_steps 2 m pc = Some (m, (pc + 2)%Z)) ∧
  (a = ch_minus → b = ch_plus → loop_steps 2 m pc = Some (m, (pc + 2)%Z)) ∧
  (a = ch_gt → b = ch_lt → (cellptr m < CELL_COUNT - 1)%Z →
   loop_steps 2 m pc = Some (m, (pc + 2)%Z)) ∧
  (a = ch_lt → b = ch_gt → (0 < cellptr m)%Z →
   loop_steps 2 m pc = Some (m, (pc + 2)%Z)).
Proof.
  pose proof Hok as [Hlen Hptr].
  assert (Z.to_nat (cellptr m) < length (cells m)) as Hin by lia.
  assert (pc + 2 ≤ source_size m)%Z as Hsize.
  { apply lookup_lt_Some in Hb. unfold source_size. lia. }
  assert (∀ mid,
            source_size mid = source_size m →
            body m pc = Next mid pc →
            body mid (pc + 1) = Next m (pc + 1) →
            loop_steps 2 m pc = Some (m, (pc + 2)%Z)) as Hchain.
  { intros mid Hmid H1 H2.
    apply (loop_steps_chain 2 (λ i, match i with 1 => mid | _ => m end)
             pc (source_size m)); [done|done|lia| |].
    - by intros [|[|[|i]]] Hi.
    - intros [|[|i]] Hi; [by rewrite Z.add_0_r|done|lia]. }
  split_and!.
  - intros -> ->. apply (Hchain (set_cell m (u8_wrap (v + 1)))); [done| |].
    + by apply body_inc.
    + rewrite (body_dec _ _ (u8_wrap (v + 1))); [|done|].
      * rewrite set_cell_twice. f_equal.
        replace (u8_wrap (u8_wrap (v + 1) - 1)) with v; [by apply set_cell_same|].
        unfold u8_wrap. rewrite Zminus_mod_idemp_l.
        replace (v + 1 - 1)%Z with v by lia. by rewrite Z.mod_small.
      * simpl. by apply list_lookup_insert_eq.
  - intros -> ->. apply (Hchain (set_cell m (u8_wrap (v - 1)))); [done| |].
    + by apply body_dec.
    + rewrite (body_inc _ _ (u8_wrap (v - 1))); [|done|].
      * rewrite set_cell_twice. f_equal.
        replace (u8_wrap (u8_wrap (v - 1) + 1)) with v; [by apply set_cell_same|].
        unfold u8_wrap. rewrite Zplus_mod_idemp_l.
        replace (v - 1 + 1)%Z with v by lia. by rewrite Z.mod_small.
      * simpl. by apply list_lookup_insert_eq.
  - intros -> -> Hroom. apply (Hchain (with_cellptr m (cellptr m + 1))); [done| |].
    + apply body_right; [done|lia].
    + rewrite body_left; [|done|simpl; lia]. f_equal.
      unfold with_cellptr. simpl.
      replace (cellptr m + 1 - 1)%Z with (cellptr m) by lia. by destruct m.
  - intros -> -> Hroom. apply (Hchain (with_cellptr m (cellptr m - 1))); [done| |].
    + apply body_left; [done|lia].
    + rewrite body_right; [|done|simpl; lia]. f_equal.
      unfold with_cellptr. simpl.
      replace (cellptr m - 1 + 1)%Z with (cellptr m) by lia. by destruct m.
Qed.

Lemma inverse_instruction_pairs_witness :
  let m := boot false (bytes_of_string "><")
             (MkPrepared [Some 1; Some 1] [None; None] [] true) [] in
  (ch_gt = ch_plus → ch_lt = ch_minus → loop_steps 2 m 0 = Some (m, (0 + 2)%Z)) ∧
  (ch_gt = ch_minus → ch_lt = ch_plus → loop_steps 2 m 0 = Some (m, (0 + 2)%Z)) ∧
  (ch_gt = ch_gt → ch_lt = ch_lt → (cellptr m < CELL_COUNT - 1)%Z →
   loop_steps 2 m 0 = Some (m, (0 + 2)%Z)) ∧
  (ch_gt = ch_lt → ch_lt = ch_gt → (0 < cellptr m)%Z →
   loop_steps 2 m 0 = Some (m, (0 + 2)%Z)).
Proof.
  intros m.
  apply (inverse_instruction_pairs m 0 ch_gt ch_lt 0);
    [lia|done|apply tape_ok_boot|apply boot_cell_zero|lia|reflexivity|reflexivity].
Defined.

(** ** A whole loop: the clear idiom *)

(** X13.  The loop [[-]] clears the current cell.  Entered with the cell holding
    [v], a prepared machine runs the three bytes [v] times, then the ['[']
    once more, and is at the byte after the [']'] with the cell at 0 and
    nothing else changed: the loop ends, after [3 v + 1] iterations. *)
Theorem clear_loop (m : machine) (pc v : Z)
  (Hprep : prepared_for m) (Hpc : (0 ≤ pc)%Z)
  (Hsz : (source_size m < SIZE_MODULUS)%Z) (Hok : tape_ok m)
  (Hv : cells m !! Z.to_nat (cellptr m) = Some v) (Hu8 : (0 ≤ v < 256)%Z)
  (H0 : source m !! Z.to_nat pc = Some ch_open)
  (H1 : source m !! Z.to_nat (pc + 1) = Some ch_minus)
  (H2 : source m !! Z.to_nat (pc + 2) = Some ch_close) :
  loop_steps (3 * Z.to_nat v + 1) m pc = Some (set_cell m 0, (pc + 3)%Z).
Proof.
  remember (Z.to_nat v) as n eqn:Hn. symmetry in Hn.
  revert m v Hn Hu8 Hprep Hsz Hok Hv H0 H1 H2.
  induction n as [|n IH]; intros m v Hn Hu8 Hprep Hsz Hok Hv H0 H1 H2.
  - assert (v = 0%Z) as -> by lia.
    destruct (open_step_zero m pc Hprep Hpc Hsz H0 Hv) as (j & Hm & Hstep).
    assert (matched (source m) (Z.to_nat pc) (Z.to_nat (pc + 2))) as Hm2.
    { split_and!; [lia|done|done|].
      replace (Z.to_nat (pc + 2)) with (S (S (Z.to_nat pc))) by lia.
      rewrite (segment_one _ _ ch_minus); [done|].
      by replace (S (Z.to_nat pc)) with (Z.to_nat (pc + 1)) by lia. }
    rewrite (matched_close_unique _ _ _ _ Hm Hm2) in Hstep.
    simpl loop_steps. rewrite Hstep, (set_cell_same m 0 Hv).
    do 2 f_equal. lia.
  - assert (matched (source m) (Z.to_nat pc) (Z.to_nat (pc + 2))) as Hm2.
    { split_and!; [lia|done|done|].
      replace (Z.to_nat (pc + 2)) with (S (S (Z.to_nat pc))) by lia.
      rewrite (segment_one _ _ ch_minus); [done|].
      by replace (S (Z.to_nat pc)) with (Z.to_nat (pc + 1)) by lia. }
    destruct (prepared_jumps_pair m _ _ Hprep Hm2) as [_ Hback].
    set (m1 := set_cell m (u8_wrap (v - 1))).
    assert (u8_wrap (v - 1) = (v - 1)%Z) as Hu
      by (unfold u8_wrap; apply Z.mod_small; lia).
    assert (loop_steps 3 m pc = Some (m1, pc)) as H3.
    { simpl loop_steps.
      rewrite (open_step_nonzero m pc v) by (done || lia).
      rewrite (loop_step_next m (pc + 1) m1 (pc + 1)).
      - rewrite size_wrap_small.
        + replace (pc + 1 + 1)%Z with (pc + 2)%Z by lia.
          rewrite (close_step_to m1 (pc + 2) (Z.to_nat pc)).
          * by rewrite Z2Nat.id.
          * lia.
          * done.
          * done.
          * done.
          * apply lookup_lt_Some in H0. done.
        + apply lookup_lt_Some in H2. unfold source_size in *. lia.
      - apply lookup_lt_Some in H1. unfold source_size. lia.
      - by apply body_dec. }
    replace (3 * S n + 1) with (3 + (3 * n + 1)) by lia.
    rewrite loop_steps_add, H3.
    assert (prepared_for m1) as Hprep1 by (by apply (prepared_for_tables m m1)).
    assert (tape_ok m1) as Hok1 by (by apply tape_ok_set_cell).
    assert (cells m1 !! Z.to_nat (cellptr m1) = Some (v - 1)%Z) as Hv1.
    { unfold m1. simpl. rewrite Hu. apply list_lookup_insert_eq.
      by eapply lookup_lt_Some. }
    rewrite (IH m1 (v - 1)%Z ltac:(lia) ltac:(lia) Hprep1 Hsz Hok1 Hv1 H0 H1 H2).
    unfold m1. by rewrite set_cell_twice.
Qed.

Lemma clear_loop_witness :
  let m := set_cell (boot false (bytes_of_string "[-]")
                       (MkPrepared (replicate 3 (Some 1)) [Some 2; None; Some 0] [] true)
                       []) 2 in
  loop_steps (3 * Z.to_nat 2 + 1) m 0 = Some (set_cell m 0, (0 + 3)%Z).
Proof.
  intros m.
  assert (prepared_for m) as Hprep.
  { by exists (MkPrepared (replicate 3 (Some 1)) [Some 2; None; Some 0] [] true). }
  assert (tape_ok m) as Hok by apply tape_ok_set_cell, tape_ok_boot.
  assert (cells m !! Z.to_nat (cellptr m) = Some 2%Z) as Hv.
  { unfold m, set_cell, with_cells, boot. cbn [cells cellptr].
    apply list_lookup_insert_eq. rewrite length_replicate. unfold CELL_COUNT. lia. }
  apply (clear_loop m 0 2 Hprep); [lia|done|exact Hok|exact Hv|lia|done..].
Defined.

(** ** A source that [prepare] rejects is not run *)

(** X14.  When the brackets of the source are not balanced, [execute] is not
    called at all: whatever the bound on iterations, the result is the
    initial machine, with the tape all zero, nothing written to [stdout], no
    input consumed, [stderr] holding the messages of [prepare], and the
    status is failure. *)
Theorem unbalanced_source_is_not_run (fuel : nat) (dbg : bool) (src input : list Z)
  (Hu : ¬ balanced src) :
  ∃ p, prepare src = Some p ∧
       main fuel dbg src input = Some (Finished (boot dbg src p input) false) ∧
       stdout (boot dbg src p input) = [] ∧
       stdin (boot dbg src p input) = input ∧
       stderr (boot dbg src p input) = pr_errors p ∧ pr_errors p ≠ [].
Proof.
  destruct (prepare src) as [p|] eqn:Hp; [|by rewrite prepare_defined in Hp].
  assert (pr_success p = false) as Hs.
  { apply not_true_is_false. intros Ht. apply Hu.
    by apply (prepare_success_iff src p Hp). }
  exists p. split_and!; [done| |done..|].
  - unfold main. by rewrite Hp, Hs.
  - rewrite prepare_defined in Hp. injection Hp as <-.
    cbn [pr_success pr_errors] in *.
    pose proof (scan_inv_final src) as Hinv.
    intros Hnil. apply app_eq_nil in Hnil as [Hn1 Hn2].
    apply andb_false_iff in Hs as [Hf|Hf].
    + rewrite (inv_success _ _ _ Hinv), bool_decide_eq_false in Hf. done.
    + apply bool_decide_eq_false in Hf. apply fmap_nil_inv in Hn2.
      apply Hf. rewrite <- (reverse_involutive (p_stack _)), Hn2. done.
Qed.

Lemma unbalanced_source_is_not_run_witness :
  ∃ p, prepare (bytes_of_string ".[") = Some p ∧
       main 9 false (bytes_of_string ".[") [65%Z]
       = Some (Finished (boot false (bytes_of_string ".[") p [65%Z]) false) ∧
       stdout (boot false (bytes_of_string ".[") p [65%Z]) = [] ∧
       stdin (boot false (bytes_of_string ".[") p [65%Z]) = [65%Z] ∧
       stderr (boot false (bytes_of_string ".[") p [65%Z]) = pr_errors p ∧
       pr_errors p ≠ [].
Proof.
  apply (unbalanced_source_is_not_run 9 false (bytes_of_string ".[") [65%Z]).
  unfold balanced. vm_compute. discriminate.
Defined.

(** * The command line: [argcheck] *)

Lemma argcheck_loop_step a rest st :
  ¬ help_or_version a →
  argcheck_loop (a :: rest) st =
  argcheck_loop rest
    (if decide (a = "--debug"%string) then
       MkArgs true (a_path st) (a_unrecognized st) (a_multiple st) (a_err st)
     else if looks_like_option a then
       MkArgs (a_debug st) (a_path st) true (a_multiple st)
              (a_err st ++ [unrecognized_line a])
     else match a_path st with
          | Some _ =>
              MkArgs (a_debug st) (a_path st) (a_unrecognized st) true (a_err st)
          | None =>
              MkArgs (a_debug st) (Some a) (a_unrecognized st) (a_multiple st)
                     (a_err st)
          end).
Proof.
  intros Hn. unfold help_or_version in Hn. simpl.
  destruct (String.eqb_spec a "-h"); [tauto|].
  destruct (String.eqb_spec a "--help"); [tauto|].
  destruct (String.eqb_spec a "--version"); [tauto|]. simpl.
  destruct (String.eqb_spec a "--debug"), (decide (a = "--debug"%string)); try done.
  destruct (looks_like_option a); [done|]. by destruct (a_path st).
Qed.

(** The loop on arguments none of which asks for help or the version. *)
Lemma argcheck_loop_plain args st :
  Forall (λ a, ¬ help_or_version a) args →
  argcheck_loop args st =
  inl (MkArgs
         (a_debug st || bool_decide ("--debug"%string ∈ args))
         (match a_path st with
          | Some p => Some p
          | None => head (filter file_argument args)
          end)
         (a_unrecognized st || bool_decide (filter unrecognized args ≠ []))
         (a_multiple st ||
          bool_decide (2 ≤ length (option_list (a_path st))
                           + length (filter file_argument args)))
         (a_err st ++ (unrecognized_line <$> filter unrecognized args))).
Proof.
  intros Hall. revert st. induction Hall as [|a args Ha _ IH]; intros st.
  - simpl. destruct st as [d p u mu e]. simpl.
    rewrite !orb_false_r, app_nil_r.
    assert (bool_decide (2 ≤ length (option_list p) + 0) = false) as ->.
    { apply bool_decide_eq_false. destruct p; simpl; lia. }
    rewrite orb_false_r. by destruct p.
  - rewrite (argcheck_loop_step a args st Ha), IH.
    destruct (decide (a = "--debug"%string)) as [->|Hd].
    + cbn [a_debug a_path a_unrecognized a_multiple a_err].
      rewrite filter_cons_False by (by intros [? _]).
      rewrite filter_cons_False by (by intros [? _]).
      rewrite (bool_decide_eq_true_2 ("--debug"%string ∈ "--debug"%string :: args))
        by (by left).
      by rewrite orb_true_r.
    + assert (bool_decide ("--debug"%string ∈ a :: args)
              = bool_decide ("--debug"%string ∈ args)) as Hmem.
      { apply bool_decide_ext. rewrite elem_of_cons. split; [|by right].
        by intros [?|?]. }
      rewrite Hmem.
      destruct (looks_like_option a) eqn:Hopt.
      * cbn [a_debug a_path a_unrecognized a_multiple a_err].
        rewrite (filter_cons_True unrecognized) by done.
        rewrite (filter_cons_False file_argument) by (intros [_ ?]; congruence).
        rewrite (bool_decide_eq_true_2 (a :: filter unrecognized args ≠ [])) by done.
        rewrite orb_true_r. rewrite fmap_cons, <- app_assoc. done.
      * rewrite (filter_cons_False unrecognized) by (intros [_ ?]; congruence).
        rewrite (filter_cons_True file_argument) by done.
        destruct (a_path st) as [p|] eqn:Hp;
          cbn [a_debug a_path a_unrecognized a_multiple a_err head option_list length].
        -- rewrite (bool_decide_eq_true_2
                      (2 ≤ 1 + S (length (filter file_argument args)))) by lia.
           by rewrite orb_true_r.
        -- done.
Qed.

Lemma argcheck_loop_app pre rest st st' :
  argcheck_loop pre st = inl st' →
  argcheck_loop (pre ++ rest) st = argcheck_loop rest st'.
Proof.
  revert st. induction pre as [|a pre IH]; intros st; simpl.
  - by intros [= ->].
  - repeat case_match; try done; apply IH.
Qed.

(** X15.  The first argument among [-h], [--help] and [--version] decides:
    [argcheck] exits with [EXIT_SUCCESS] after printing the usage text or
    the version, whatever follows; the arguments before it that look like
    options have each been reported as unrecognized by then, and no file has
    been opened. *)
Theorem argcheck_help_or_version (prog : string) (pre post : list string)
  (a : string)
  (Hpre : Forall (λ x, ¬ help_or_version x) pre)
  (Ha : help_or_version a) :
  argcheck (prog :: pre ++ a :: post) =
  ArgExit EXIT_SUCCESS
    [if decide (a = "--version"%string) then VERSION else usage_text]
    (unrecognized_line <$> filter unrecognized pre).
Proof.
  unfold argcheck.
  assert (Nat.eqb (length (prog :: pre ++ a :: post)) 1 = false) as ->.
  { apply Nat.eqb_neq. rewrite length_cons, length_app. simpl. lia. }
  cbn [tail].
  rewrite (argcheck_loop_app pre (a :: post) _ _ (argcheck_loop_plain pre _ Hpre)).
  cbn [argcheck_loop a_err app].
  destruct Ha as [ -> | [ -> | -> ] ]; simpl; done.
Qed.

Lemma argcheck_help_or_version_witness :
  argcheck ("bfi" :: ["-x"; "prog.bf"] ++ "--version" :: ["-h"])%string =
  ArgExit EXIT_SUCCESS
    [if decide ("--version" = "--version")%string then VERSION else usage_text]
    (unrecognized_line <$> filter unrecognized ["-x"; "prog.bf"]%string).
Proof.
  apply (argcheck_help_or_version "bfi" ["-x"; "prog.bf"]%string ["-h"]%string
           "--version").
  - repeat constructor; unfold help_or_version; intros [H|[H|H]]; discriminate.
  - right. by right.
Defined.

(** The case in which [argcheck] returns. *)
Lemma argcheck_returns (prog : string) (args : list string) :
  args ≠ [] → Forall (λ a, ¬ help_or_version a) args →
  filter unrecognized args = [] → length (filter file_argument args) ≤ 1 →
  argcheck (prog :: args) =
  ArgReturn (bool_decide ("--debug"%string ∈ args))
            (head (filter file_argument args)).
Proof.
  intros Hne Hall Hu Hf. unfold argcheck.
  assert (Nat.eqb (length (prog :: args)) 1 = false) as ->.
  { apply Nat.eqb_neq. destruct args; [done|]. simpl. lia. }
  cbn [tail]. rewrite (argcheck_loop_plain args _ Hall).
  cbn [a_debug a_path a_unrecognized a_multiple a_err orb].
  change (length (@option_list string None)) with 0. rewrite Nat.add_0_l.
  rewrite (bool_decide_eq_false_2 (filter unrecognized args ≠ [])) by tauto.
  by rewrite (bool_decide_eq_false_2 (2 ≤ _)) by lia.
Qed.

(** X16.  Without [-h], [--help] and [--version] among at least one argument:
    [argcheck] returns when no argument other than [--debug] starts with
    ['-'] and at most one argument is a file name; [debug] is then set
    exactly when [--debug] occurs and [path] is that file name, or still
    [NULL] when there is none.  Otherwise it exits with [EXIT_FAILURE] after
    one line per unrecognized option, in order, followed by one line when
    more than one file is named. *)
Theorem argcheck_plain (prog : string) (args : list string)
  (Hne : args ≠ [])
  (Hall : Forall (λ a, ¬ help_or_version a) args) :
  argcheck (prog :: args) =
  if decide (filter unrecognized args = [] ∧
             length (filter file_argument args) ≤ 1)
  then ArgReturn (bool_decide ("--debug"%string ∈ args))
                 (head (filter file_argument args))
  else ArgExit EXIT_FAILURE []
         ((unrecognized_line <$> filter unrecognized args) ++
          (if decide (2 ≤ length (filter file_argument args))
           then [errorf_line "More than one file provided"] else [])).
Proof.
  unfold argcheck.
  assert (Nat.eqb (length (prog :: args)) 1 = false) as ->.
  { apply Nat.eqb_neq. destruct args; [done|]. simpl. lia. }
  cbn [tail]. rewrite (argcheck_loop_plain args _ Hall).
  cbn [a_debug a_path a_unrecognized a_multiple a_err orb].
  change (length (@option_list string None)) with 0. rewrite Nat.add_0_l.
  destruct (decide (filter unrecognized args = [])) as [Hu|Hu].
  - rewrite (bool_decide_eq_false_2 (filter unrecognized args ≠ [])) by tauto.
    rewrite Hu. cbn [fmap list_fmap orb app].
    destruct (decide (2 ≤ length (filter file_argument args))) as [Hm|Hm].
    + rewrite (bool_decide_eq_true_2 (2 ≤ _)) by lia.
      rewrite decide_False by lia. done.
    + rewrite (bool_decide_eq_false_2 (2 ≤ _)) by lia.
      rewrite decide_True by (split; [done|lia]). done.
  - rewrite (bool_decide_eq_true_2 (filter unrecognized args ≠ [])) by done.
    rewrite decide_False by tauto. cbn [orb].
    destruct (decide (2 ≤ length (filter file_argument args))) as [Hm|Hm].
    + by rewrite (bool_decide_eq_true_2 (2 ≤ _)) by lia.
    + rewrite (bool_decide_eq_false_2 (2 ≤ _)) by lia. by rewrite app_nil_r.
Qed.

Lemma argcheck_plain_witness :
  argcheck ("bfi" :: ["--debug"; "prog.bf"])%string =
  if decide (filter unrecognized ["--debug"; "prog.bf"]%string = [] ∧
             length (filter file_argument ["--debug"; "prog.bf"]%string) ≤ 1)
  then ArgReturn (bool_decide ("--debug"%string ∈ ["--debug"; "prog.bf"]%string))
                 (head (filter file_argument ["--debug"; "prog.bf"]%string))
  else ArgExit EXIT_FAILURE []
         ((unrecognized_line <$> filter unrecognized ["--debug"; "prog.bf"]%string) ++
          (if decide (2 ≤ length (filter file_argument ["--debug"; "prog.bf"]%string))
           then [errorf_line "More than one file provided"] else [])).
Proof.
  apply (argcheck_plain "bfi" ["--debug"; "prog.bf"]%string); [done|].
  repeat constructor; unfold help_or_version; intros [H|[H|H]]; discriminate.
Defined.

(** * The source file: [xslurp], and [main] from the command line on *)

Lemma xslurp_loop_spec heap calls buf bytes :
  xslurp_loop heap calls buf bytes =
  if forallb heap (seq calls (length bytes))
  then Some (buf ++ bytes, calls + length bytes)
  else None.
Proof.
  revert calls buf. induction bytes as [|c bytes IH]; intros calls buf; simpl.
  - by rewrite app_nil_r, Nat.add_0_r.
  - destruct (heap calls); simpl; [|done].
    rewrite IH, <- app_assoc. simpl. by rewrite Nat.add_succ_r.
Qed.

(** X17.  [xslurp] returns the bytes of the file, all of them and in order, with
    their number as the size, when the file can be opened, every [realloc]
    succeeds and the stream ends without a read error; an empty file gives
    an empty buffer, without any call of [realloc].  In every other case it
    exits after one line on [stderr]: the [strerror] text when [fopen]
    fails, "Out of memory" when one of the [realloc] calls fails, and
    "Failed to slurp file" when the stream ends in a read error. *)
Theorem xslurp_returns_the_file (fs : string → fopen_result) (heap : nat → bool)
  (calls : nat) (path : string) :
  match fs path with
  | FopenFails reason =>
      xslurp fs heap calls path = SlurpExit (errorf_line reason)
  | FopenStream bytes read_error =>
      xslurp fs heap calls path =
      if forallb heap (seq calls (length bytes)) then
        if read_error
        then SlurpExit
               (errorf_line
                  (String.append "Failed to slurp file '" (String.append path "'")))
        else SlurpReturn bytes (calls + length bytes)
      else SlurpExit (errorf_line "Out of memory")
  end.
Proof.
  unfold xslurp. destruct (fs path) as [reason|bytes err]; [done|].
  rewrite xslurp_loop_spec. by destruct (forallb heap _).
Qed.

Lemma forallb_always (heap : nat → bool) (l : list nat) :
  (∀ k, heap k = true) → forallb heap l = true.
Proof. intros H. induction l as [|x l IH]; simpl; [done|]. by rewrite H, IH. Qed.

Lemma prepare_xalloc_always heap calls n :
  (∀ k, heap k = true) → prepare_xalloc heap calls n = true.
Proof. intros H. destruct n; simpl; [done|]. by rewrite !H. Qed.

(** X18.  A command line that names one file and otherwise holds only [--debug]
    runs that file: when the file can be read and no [realloc] fails, the
    process reaches [prepare() && execute()] on exactly the bytes of the
    file, with the dump instruction enabled exactly when [--debug] was
    given. *)
Theorem main_runs_the_named_file (fs : string → fopen_result)
  (heap : nat → bool) (fuel : nat) (prog file : string) (args : list string)
  (bytes input : list Z)
  (Hall : Forall (λ a, ¬ help_or_version a) args)
  (Hopts : filter unrecognized args = [])
  (Hfile : filter file_argument args = [file])
  (Hfs : fs file = FopenStream bytes false)
  (Hheap : ∀ k, heap k = true) :
  main_argv fs heap fuel (prog :: args) input =
  Ran (main fuel (bool_decide ("--debug"%string ∈ args)) bytes input).
Proof.
  unfold main_argv.
  assert (args ≠ []) as Hne by (intros ->; done).
  rewrite (argcheck_returns prog args Hne Hall Hopts) by (rewrite Hfile; simpl; lia).
  rewrite Hfile. cbn [head].
  unfold xslurp. rewrite Hfs, xslurp_loop_spec, (forallb_always heap _ Hheap).
  cbn [app]. by rewrite prepare_xalloc_always.
Qed.

Lemma main_runs_the_named_file_witness :
  let fs := λ p : string,
      if String.eqb p "prog.bf" then FopenStream (bytes_of_string "+.") false
      else FopenFails "No such file or directory" in
  main_argv fs (λ _, true) 4 ["bfi"; "--debug"; "prog.bf"]%string [] =
  Ran (main 4 (bool_decide ("--debug"%string ∈ ["--debug"; "prog.bf"]%string))
         (bytes_of_string "+.") []).
Proof.
  intros fs.
  apply (main_runs_the_named_file fs (λ _, true) 4 "bfi" "prog.bf"
           ["--debug"; "prog.bf"]%string (bytes_of_string "+.") []);
    [|reflexivity|reflexivity|reflexivity|done].
  repeat constructor; unfold help_or_version; intros [H|[H|H]]; discriminate.
Defined.

Lemma filter_none {A} (P : A → Prop) `{!∀ x, Decision (P x)} (l : list A) :
  Forall (λ x, ¬ P x) l → filter P l = [].
Proof.
  induction 1 as [|x l Hx _ IH]; [done|]. by rewrite filter_cons_False.
Qed.

(** X19.  A command line without a file name is not diagnosed: when every
    argument is [--debug], [argcheck] returns with [debug] set and [path]
    still [NULL], and [main] goes on to call [xslurp], that is
    [fopen(NULL, "rb")], with it. *)
Theorem missing_file_is_not_diagnosed (fs : string → fopen_result)
  (heap : nat → bool) (fuel : nat) (prog : string) (args : list string)
  (input : list Z)
  (Hne : args ≠ [])
  (Hall : Forall (λ a, a = "--debug"%string) args) :
  argcheck (prog :: args) = ArgReturn true None ∧
  main_argv fs heap fuel (prog :: args) input = NullPath true.
Proof.
  assert (Forall (λ a, ¬ help_or_version a) args) as Hnh.
  { eapply Forall_impl; [exact Hall|]. intros a -> [H|[H|H]]; discriminate. }
  assert (filter unrecognized args = []) as Hu.
  { apply filter_none. eapply Forall_impl; [exact Hall|]. by intros a -> [? _]. }
  assert (filter file_argument args = []) as Hf.
  { apply filter_none. eapply Forall_impl; [exact Hall|]. by intros a -> [? _]. }
  assert (argcheck (prog :: args) = ArgReturn true None) as Harg.
  { rewrite (argcheck_returns prog args Hne Hnh Hu) by (rewrite Hf; simpl; lia).
    rewrite Hf. cbn [head]. rewrite bool_decide_eq_true_2; [done|].
    destruct args as [|a args]; [done|].
    apply Forall_cons in Hall as [-> _]. by left. }
  split; [done|]. unfold main_argv. by rewrite Harg.
Qed.

Lemma missing_file_is_not_diagnosed_witness :
  argcheck ("bfi" :: ["--debug"])%string = ArgReturn true None ∧
  main_argv (λ _, FopenFails "unused") (λ _, true) 0 ("bfi" :: ["--debug"])%string []
  = NullPath true.
Proof.
  apply (missing_file_is_not_diagnosed (λ _, FopenFails "unused") (λ _, true) 0
           "bfi" ["--debug"]%string []); [done|].
  by repeat constructor.
Defined.

(** * Input to output, and programs without loops *)

(** X20.  [','] followed by ['.'] echoes one byte: the byte read is stored in the
    current cell and then written to [stdout] unchanged; the rest of the
    input is left to be read. *)
Theorem input_then_output_echoes (m : machine) (pc : Z) (c : Z) (rest : list Z)
  (Hpc : (0 ≤ pc)%Z) (Hsz : (source_size m < SIZE_MODULUS)%Z)
  (Hok : tape_ok m)
  (Hin : stdin m = c :: rest) (Hc : (0 ≤ c < 256)%Z)
  (H0 : source m !! Z.to_nat pc = Some ch_comma)
  (H1 : source m !! Z.to_nat (pc + 1) = Some ch_dot) :
  loop_steps 2 m pc =
  Some (print (set_cell (with_stdin m rest) c) (OutByte c), (pc + 2)%Z) ∧
  stdout (print (set_cell (with_stdin m rest) c) (OutByte c))
  = stdout m ++ [OutByte c] ∧
  stdin (print (set_cell (with_stdin m rest) c) (OutByte c)) = rest.
Proof.
  split; [|done].
  destruct (tape_ok_lookup m Hok) as [v Hv].
  assert (pc + 2 ≤ source_size m)%Z as Hsize.
  { apply lookup_lt_Some in H1. unfold source_size. lia. }
  set (m1 := set_cell (with_stdin m rest) c).
  apply (loop_steps_chain 2
           (λ i, match i with
                 | 0 => m
                 | 1 => m1
                 | _ => print m1 (OutByte c)
                 end) pc (source_size m)); [done|done|lia| |].
  - by intros [|[|[|i]]] Hi.
  - intros [|[|i]] Hi; [| |lia].
    + rewrite Z.add_0_r. body_at H0. rewrite Hin, Hv.
      unfold u8_wrap. by rewrite Z.mod_small.
    + assert (cells m1 !! Z.to_nat (cellptr m1) = Some c) as Hv1.
      { unfold m1. simpl. apply list_lookup_insert_eq. by eapply lookup_lt_Some. }
      assert (source m1 !! Z.to_nat (pc + Z.of_nat 1) = Some ch_dot) as H1' by done.
      body_at H1'. by rewrite Hv1.
Qed.

Lemma input_then_output_echoes_witness :
  let m := boot false (bytes_of_string ",.")
             (MkPrepared [Some 1; Some 1] [None; None] [] true) [65%Z; 66%Z] in
  loop_steps 2 m 0 =
  Some (print (set_cell (with_stdin m [66%Z]) 65) (OutByte 65), (0 + 2)%Z) ∧
  stdout (print (set_cell (with_stdin m [66%Z]) 65) (OutByte 65))
  = stdout m ++ [OutByte 65] ∧
  stdin (print (set_cell (with_stdin m [66%Z]) 65) (OutByte 65)) = [66%Z].
Proof.
  intros m.
  apply (input_then_output_echoes m 0 65 [66%Z]);
    [lia|done|apply tape_ok_boot|reflexivity|lia|reflexivity|reflexivity].
Defined.

Lemma decode_bracket_inv c :
  (decode c = LoopOpen → c = ch_open) ∧ (decode c = LoopClose → c = ch_close).
Proof.
  unfold decode.
  repeat match goal with
         | |- context [(c =? ?k)%Z] => destruct (Z.eqb_spec c k)
         end; by split.
Qed.

Lemma body_next_same_pc m pc c m' pc' :
  source m !! Z.to_nat pc = Some c → c ≠ ch_open → c ≠ ch_close →
  body m pc = Next m' pc' → pc' = pc.
Proof.
  intros Hs Ho Hc. unfold body. rewrite Hs.
  destruct (decode_bracket_inv c) as [Hio Hic].
  destruct (decode c).
  - destruct (cells m !! _); [by intros [= _ <-]|done].
  - destruct (cells m !! _); [by intros [= _ <-]|done].
  - destruct (cellptr m =? CELL_COUNT - 1)%Z; [|by intros [= _ <-]].
    by destruct (array_get _ _).
  - destruct (cellptr m =? 0)%Z; [|by intros [= _ <-]].
    by destruct (array_get _ _).
  - by destruct Ho; apply Hio.
  - by destruct Hc; apply Hic.
  - destruct (cells m !! _); [by intros [= _ <-]|done].
  - destruct (stdin m); [by intros [= _ <-]|].
    destruct (cells m !! _); [by intros [= _ <-]|done].
  - destruct (negb (debug m)); [by intros [= _ <-]|].
    unfold dump. destruct (dump_loop _ _ _); [by intros [= _ <-]|done..].
  - by intros [= _ <-].
Qed.

Lemma straight_line_run fuel :
  ∀ m pc,
    Forall (λ c, c ≠ ch_open ∧ c ≠ ch_close) (source m) →
    (source_size m < SIZE_MODULUS)%Z →
    (0 ≤ pc ≤ source_size m)%Z →
    length (source m) - Z.to_nat pc ≤ fuel →
    (∀ m' pc', execute_from fuel m pc ≠ OutOfFuel m' pc') ∧
    executed fuel m pc
    = (λ i, (pc + Z.of_nat i)%Z) <$> seq 0 (length (executed fuel m pc)).
Proof.
  induction fuel as [|fuel IH]; intros m pc Hnb Hsz Hpc Hfuel.
  - simpl. destruct (Z.ltb_spec pc (source_size m)) as [Hlt|]; [|done].
    unfold source_size in *. lia.
  - simpl. destruct (Z.ltb_spec pc (source_size m)) as [Hlt|]; [|done].
    destruct (lookup_lt_is_Some_2 (source m) (Z.to_nat pc)) as [c Hc].
    { unfold source_size in *. lia. }
    assert (c ≠ ch_open ∧ c ≠ ch_close) as [Ho Hcl].
    { rewrite Forall_forall in Hnb. apply Hnb. by eapply list_elem_of_lookup_2. }
    destruct (body m pc) as [m1 pc1|m1 ok|m1 f] eqn:Hb.
    + pose proof (body_next_same_pc _ _ _ _ _ Hc Ho Hcl Hb) as ->.
      pose proof (body_tables m pc) as (Hs' & _). rewrite Hb in Hs'.
      cbn [machine_of] in Hs'.
      assert (source_size m1 = source_size m) as Hsize
        by (unfold source_size; by rewrite Hs').
      rewrite size_wrap_small by lia.
      destruct (IH m1 (pc + 1)%Z) as [Hno Hex].
      * by rewrite Hs'.
      * lia.
      * lia.
      * rewrite Hs'. lia.
      * split; [done|]. rewrite Hex at 1. simpl. rewrite Z.add_0_r. f_equal.
        rewrite <- seq_shift, <- list_fmap_compose. apply list_fmap_ext.
        intros _ i _. simpl. lia.
    + split; [done|]. simpl. by rewrite Z.add_0_r.
    + split; [done|]. simpl. by rewrite Z.add_0_r.
Qed.

(** X21.  A program without brackets runs straight through: every byte is
    processed at most once, in order, and within as many iterations as the
    source has bytes [execute] has ended. *)
Theorem bracket_free_source_terminates (m : machine) (fuel : nat)
  (Hnb : Forall (λ c, c ≠ ch_open ∧ c ≠ ch_close) (source m))
  (Hsz : (source_size m < SIZE_MODULUS)%Z)
  (Hfuel : length (source m) ≤ fuel) :
  (∀ m' pc', execute fuel m ≠ OutOfFuel m' pc') ∧
  executed fuel m 0 = (Z.of_nat <$> seq 0 (length (executed fuel m 0))) ∧
  length (executed fuel m 0) ≤ length (source m).
Proof.
  destruct (straight_line_run fuel m 0 Hnb Hsz) as [Hno Hex].
  { unfold source_size. lia. }
  { lia. }
  split; [exact Hno|]. split.
  - rewrite Hex at 1. apply list_fmap_ext. intros _ i _. simpl. lia.
  - assert (Forall (λ z, (z < source_size m)%Z) (executed fuel m 0)) as Hlt.
    { clear. generalize 0%Z as pc. revert m.
      induction fuel as [|fuel IH]; intros m pc; simpl.
      - by destruct (pc <? source_size m)%Z.
      - destruct (Z.ltb_spec pc (source_size m)); [|done].
        constructor; [done|].
        pose proof (body_tables m pc) as (Hs & _).
        destruct (body m pc) as [m1 pc1| |]; [|done..]. cbn [machine_of] in Hs.
        specialize (IH m1 (size_wrap (pc1 + 1))).
        unfold source_size in *. by rewrite Hs in IH. }
    rewrite Hex in Hlt. rewrite Forall_fmap, Forall_forall in Hlt.
    destruct (length (executed fuel m 0)) as [|n] eqn:Hn; [lia|].
    specialize (Hlt n). simpl in Hlt.
    assert (n ∈ seq 0 (S n)) as Hin by (apply elem_of_seq; lia).
    specialize (Hlt Hin). unfold source_size in Hlt. lia.
Qed.

Lemma bracket_free_source_terminates_witness :
  let m := boot false (bytes_of_string "+>.")
             (MkPrepared (replicate 3 (Some 1)) (replicate 3 None) [] true) [] in
  (∀ m' pc', execute 3 m ≠ OutOfFuel m' pc') ∧
  executed 3 m 0 = (Z.of_nat <$> seq 0 (length (executed 3 m 0))) ∧
  length (executed 3 m 0) ≤ length (source m).
Proof.
  intros m. apply (bracket_free_source_terminates m 3); [|done|simpl; lia].
  repeat constructor; done.
Defined.
